(** * CHTC job telemetry recorder: scripts/wandb_logger.py

    A shallow embedding of [CHTCWandBLogger] (init_run, log_job_submission,
    log_job_completion, _parse_submit_file, _parse_log_file) and the
    properties of it that the design document states.

    Text is modelled as [string]; a character is a code point below 256
    (the Latin-1 part of Unicode), which is where every literal of the
    program lives.  Python dictionaries are [gmap string pyval].  Calls into
    the wandb SDK and prints to stderr are events of a trace; what the SDK
    answers is a parameter ([backend]) of every definition that calls it. *)

From Stdlib Require Import ZArith Ascii String List Lia.
From stdpp Require Import base option list gmap strings pretty fin_maps.

Local Open Scope Z_scope.

(** ** Python values that end up in a config or a metrics dictionary *)

Inductive pyval :=
| PStr (s : string)
| PInt (z : Z).

Global Instance pyval_eq_dec : EqDecision pyval.
Proof. solve_decision. Defined.

(** ** str methods *)

Module Str.

Definition code (c : ascii) : N := N_of_ascii c.

(** [str.isspace] on one character (also the class [\s] of [re]). *)
Definition isspace (c : ascii) : bool :=
  let n := code c in
  ((9 <=? n) && (n <=? 13) || (28 <=? n) && (n <=? 32)
   || (n =? 133) || (n =? 160))%N.

(** The class [\d] of [re]. *)
Definition isdigit (c : ascii) : bool :=
  let n := code c in ((48 <=? n) && (n <=? 57))%N.

Definition lower_char (c : ascii) : ascii :=
  let n := code c in
  if ((65 <=? n) && (n <=? 90)
      || (192 <=? n) && (n <=? 222) && negb (n =? 215))%N
  then ascii_of_N (n + 32) else c.

Fixpoint lower (s : string) : string :=
  match s with
  | EmptyString => EmptyString
  | String c s' => String (lower_char c) (lower s')
  end.

Fixpoint lstrip (s : string) : string :=
  match s with
  | EmptyString => EmptyString
  | String c s' => if isspace c then lstrip s' else s
  end.

Definition rstrip (s : string) : string :=
  String.rev (lstrip (String.rev s)).

Definition strip (s : string) : string := rstrip (lstrip s).

(** [s.startswith(c)] for a one-character prefix. *)
Definition startswith_char (c : ascii) (s : string) : bool :=
  match s with
  | String c' _ => Ascii.eqb c' c
  | EmptyString => false
  end.

(** [c in s]. *)
Fixpoint contains_char (c : ascii) (s : string) : bool :=
  match s with
  | EmptyString => false
  | String c' s' => Ascii.eqb c' c || contains_char c s'
  end.

(** [s.split(c, 1)] when [c in s]: the text before the first [c] and the
    text after it; [None] when [c] does not occur. *)
Fixpoint split_first (c : ascii) (s : string) : option (string * string) :=
  match s with
  | EmptyString => None
  | String c' s' =>
      if Ascii.eqb c' c then Some (EmptyString, s')
      else match split_first c s' with
           | Some (a, b) => Some (String c' a, b)
           | None => None
           end
  end.

(** [s.split(c)]: all the fields between occurrences of [c]. *)
Fixpoint split (c : ascii) (s : string) : list string :=
  match s with
  | EmptyString => [EmptyString]
  | String c' s' =>
      if Ascii.eqb c' c then EmptyString :: split c s'
      else match split c s' with
           | f :: fs => String c' f :: fs
           | [] => [String c' EmptyString]
           end
  end.

Definition digit_val (c : ascii) : Z := Z.of_N (code c) - 48.

Fixpoint int_acc (acc : Z) (s : string) : option Z :=
  match s with
  | EmptyString => Some acc
  | String c s' =>
      if isdigit c then int_acc (10 * acc + digit_val c) s' else None
  end.

(** [sys.get_int_max_str_digits()], as the interpreter starts. *)
Definition int_max_str_digits : nat := 4300.

(** The string has more digits than [int] converts. *)
Definition over_long (s : string) : bool :=
  (int_max_str_digits <? String.length s)%nat.

(** [int(s)] on a string of decimal digits; [None] stands for ValueError:
    the string is empty, holds something else than digits, or has more
    than 4300 characters (leading zeros count).  The only strings the
    program converts are regex captures of [\d+] (see [int_capture]). *)
Definition int (s : string) : option Z :=
  match s with
  | EmptyString => None
  | _ => if over_long s then None else int_acc 0 s
  end.

(** [str(e)] for the ValueError that [int(s)] raises on a string of more
    than 4300 digits, the one ValueError a regex capture of [\d+] can
    cause. *)
Definition int_error (s : string) : string :=
  "Exceeds the limit (4300 digits) for integer string conversion: value has "
  +:+ pretty (String.length s)
  +:+ " digits; use sys.set_int_max_str_digits() to increase the limit".

Definition LF : ascii := ascii_of_N 10.
Definition CR : ascii := ascii_of_N 13.

(** Iterating a file opened in text mode: universal newlines turn CR LF
    and CR into LF, and every line keeps its LF. *)
Fixpoint lines_go (after_cr : bool) (acc : string) (s : string)
  : list string :=
  match s with
  | EmptyString =>
      match acc with
      | EmptyString => []
      | _ => [String.rev acc]
      end
  | String c s' =>
      if Ascii.eqb c LF then
        if after_cr then lines_go false acc s'
        else String.rev (String LF acc) :: lines_go false EmptyString s'
      else if Ascii.eqb c CR then
        String.rev (String LF acc) :: lines_go true EmptyString s'
      else lines_go false (String c acc) s'
  end.

Definition file_lines (text : string) : list string :=
  lines_go false EmptyString text.

End Str.

Example strip_ex : Str.strip "  Request_CPUs 	" = "Request_CPUs".
Proof. reflexivity. Qed.

Example lower_ex : Str.lower "Request_CPUs" = "request_cpus".
Proof. reflexivity. Qed.

Example split_first_ex :
  Str.split_first "=" "executable = a=b" = Some ("executable ", " a=b").
Proof. reflexivity. Qed.

Example split_ex : Str.split ":" "01:02:03" = ["01"; "02"; "03"].
Proof. reflexivity. Qed.

Example int_ex : Str.int "0512" = Some 512.
Proof. reflexivity. Qed.

(** ** The part of [re] the program uses

    A backtracking matcher with the priorities of Python's engine: a greedy
    repetition tries the longest run first, a lazy one the shortest, and
    [search] takes the leftmost start at which the pattern matches.  The
    repetitions of the three patterns are all over one character class. *)

Module Re.

Inductive regex :=
| Lit (l : string)
| Star (greedy : bool) (p : ascii -> bool)
| Plus (p : ascii -> bool)
| Seq (r1 r2 : regex)
| Group (r : regex).

(** What a successful match hands back: [group(1)]. *)
Definition result := option string.

Fixpoint lit (l s : string) : option string :=
  match l, s with
  | EmptyString, _ => Some s
  | String a l', String b s' => if Ascii.eqb a b then lit l' s' else None
  | String _ _, EmptyString => None
  end.

Fixpoint star_lazy (p : ascii -> bool) (k : string -> option result)
  (s : string) : option result :=
  match k s with
  | Some r => Some r
  | None =>
      match s with
      | String c s' => if p c then star_lazy p k s' else None
      | EmptyString => None
      end
  end.

Fixpoint star_greedy (p : ascii -> bool) (k : string -> option result)
  (s : string) : option result :=
  match s with
  | String c s' =>
      if p c then
        match star_greedy p k s' with
        | Some r => Some r
        | None => k s
        end
      else k s
  | EmptyString => k s
  end.

Definition plus_greedy (p : ascii -> bool) (k : string -> option result)
  (s : string) : option result :=
  match s with
  | String c s' => if p c then star_greedy p k s' else None
  | EmptyString => None
  end.

Definition consumed (s rest : string) : string :=
  String.substring 0 (String.length s - String.length rest) s.

Fixpoint rmatch (r : regex) (s : string) (cap : result)
  (k : string -> result -> option result) : option result :=
  match r with
  | Lit l =>
      match lit l s with
      | Some s' => k s' cap
      | None => None
      end
  | Star true p => star_greedy p (fun s' => k s' cap) s
  | Star false p => star_lazy p (fun s' => k s' cap) s
  | Plus p => plus_greedy p (fun s' => k s' cap) s
  | Seq r1 r2 => rmatch r1 s cap (fun s1 cap1 => rmatch r2 s1 cap1 k)
  | Group r1 => rmatch r1 s cap (fun s1 _ => k s1 (Some (consumed s s1)))
  end.

Definition match_here (r : regex) (s : string) : option result :=
  rmatch r s None (fun _ cap => Some cap).

(** [re.search(r, s)]: [None] when nothing matches, else [group(1)] of
    the leftmost match. *)
Fixpoint search (r : regex) (s : string) : option result :=
  match match_here r s with
  | Some cap => Some cap
  | None =>
      match s with
      | String _ s' => search r s'
      | EmptyString => None
      end
  end.

(** [m.group(1)]; [None] there is Python's None. *)
Definition group1 (m : result) : string := default EmptyString m.

(** [.] under re.DOTALL. *)
Definition any (c : ascii) : bool := true.

Definition digits_time : regex :=
  Seq (Plus Str.isdigit)
    (Seq (Lit ":") (Seq (Plus Str.isdigit) (Seq (Lit ":") (Plus Str.isdigit)))).

(** r'Job terminated.*?run time.*?(\d+:\d+:\d+)' with re.DOTALL *)
Definition runtime_re : regex :=
  Seq (Lit "Job terminated")
    (Seq (Star false any)
       (Seq (Lit "run time") (Seq (Star false any) (Group digits_time)))).

(** r'Memory \(MB\)\s*:\s*(\d+)' *)
Definition memory_re : regex :=
  Seq (Lit "Memory (MB)")
    (Seq (Star true Str.isspace)
       (Seq (Lit ":") (Seq (Star true Str.isspace) (Group (Plus Str.isdigit))))).

(** r'Disk \(KB\)\s*:\s*(\d+)' *)
Definition disk_re : regex :=
  Seq (Lit "Disk (KB)")
    (Seq (Star true Str.isspace)
       (Seq (Lit ":") (Seq (Star true Str.isspace) (Group (Plus Str.isdigit))))).

End Re.

Example search_memory_ex :
  Re.search Re.memory_re "x Memory (MB)        : 2048  512" = Some (Some "2048").
Proof. reflexivity. Qed.

Example search_runtime_ex :
  Re.search Re.runtime_re "Job terminated. run time 1 2:03:04x run time 9:9:9"
  = Some (Some "2:03:04").
Proof. reflexivity. Qed.

Example search_none_ex : Re.search Re.disk_re "Disk (KB) : none" = None.
Proof. reflexivity. Qed.

(** ** The local file system

    [path_exists] is [os.path.exists].  Opening a file for reading either
    raises, or gives the whole decoded text, or gives some text and then
    raises (an I/O or decoding error while reading). *)

Inductive file_state :=
| Unreadable (err : string)
| Readable (text : string)
| Truncated (text err : string).

Record filesystem := {
  path_exists : string -> bool;
  open_read : string -> file_state
}.

(** ** Effects: calls into the wandb SDK and prints to stderr *)

Inductive event :=
| InitNew (project : string) (name : option string)
    (config : gmap string pyval) (tags : list string) (entity : option string)
    (* wandb.init(project=, name=, config=, tags=, entity=) *)
| InitResumeMust (run_id : string)
    (* wandb.init(id=run_id, resume="must") *)
| NewArtifact (name type : string)          (* wandb.Artifact(name, type=) *)
| AddFile (artifact path : string)          (* artifact.add_file(path) *)
| LogArtifact (name type : string) (files : list string)
    (* run.log_artifact(artifact), with the files added so far *)
| RunLog (data : gmap string pyval)         (* run.log(data) *)
| RunFinish                                 (* run.finish() *)
| Stderr (msg : string).                    (* print(msg, file=sys.stderr) *)

Global Instance event_eq_dec : EqDecision event.
Proof. solve_decision. Defined.

(** What a call into the SDK does: it returns (for wandb.init, the id of
    the run) or it raises. *)
Inductive reply :=
| Returns (v : string)
| Raises (e : string).

(** The SDK and the service behind it, as a function of the calls made
    before. *)
Definition backend_t := list event -> event -> reply.

(** A computation reads the events that happened before it and gives the
    events it adds, with an exception or a value. *)
Definition M (A : Type) : Type := list event -> list event * (string + A).

Definition ret {A} (a : A) : M A := fun _ => ([], inr a).

Definition bind {A B} (m : M A) (f : A -> M B) : M B :=
  fun h =>
    match m h with
    | (t1, inl e) => (t1, inl e)
    | (t1, inr a) =>
        match f a (h ++ t1) with
        | (t2, r) => (t1 ++ t2, r)
        end
    end.

Notation "x <-- m ;; k" := (bind m (fun x => k))
  (at level 100, m at next level, right associativity).
Notation "m ;;; k" := (bind m (fun _ => k))
  (at level 100, right associativity).

Definition print_stderr (msg : string) : M unit :=
  fun _ => ([Stderr msg], inr tt).

Definition call (backend : backend_t) (ev : event) : M string :=
  fun h =>
    match backend h ev with
    | Returns v => ([ev], inr v)
    | Raises e => ([ev], inl e)
    end.

(** ** Truthiness *)

Definition truthy_str (o : option string) : bool :=
  match o with
  | Some (String _ _) => true
  | _ => false
  end.

(** [d or {}] *)
Definition or_empty_dict (o : option (gmap string pyval)) : gmap string pyval :=
  default ∅ o.

(** [l or []] *)
Definition or_empty_list (o : option (list string)) : list string :=
  default [] o.

Definition truthy_dict (o : option (gmap string pyval)) : bool :=
  match o with
  | Some d => bool_decide (d ≠ ∅)
  | None => false
  end.

Definition truthy_list (o : option (list string)) : bool :=
  match o with
  | Some (_ :: _) => true
  | _ => false
  end.

(** ** CHTCWandBLogger *)

Record logger := {
  api_key : option string;
  entity : option string
}.

Section Logger.

Variable fs : filesystem.
Variable backend : backend_t.
Variable self : logger.

(** *** _parse_submit_file *)

(** One turn of the loop over the lines of the submit file. *)
Definition parse_submit_line (config : gmap string pyval) (raw : string)
  : gmap string pyval :=
  let line := Str.strip raw in
  if bool_decide (line = "") || Str.startswith_char "#" line then config
  else
    match Str.split_first "=" line with
    | Some (key, value) =>
        let key := Str.lower (Str.strip key) in
        let value := Str.strip value in
        if bool_decide (key ∈ ["request_cpus"; "request_memory"; "request_disk"])
        then <[key := PStr value]> config
        else if bool_decide (key = "executable")
        then <["executable" := PStr value]> config
        else if bool_decide (key = "universe")
        then <["universe" := PStr value]> config
        else config
    | None => config
    end.

(** The try block: the dictionary as far as it was filled, and the
    exception that ended the block, if any. *)
Definition parse_submit_try (submit_file : string)
  : gmap string pyval * option string :=
  match open_read fs submit_file with
  | Unreadable e => (∅, Some e)
  | Readable text => (foldl parse_submit_line ∅ (Str.file_lines text), None)
  | Truncated text e =>
      (foldl parse_submit_line ∅ (Str.file_lines text), Some e)
  end.

Definition _parse_submit_file (submit_file : string)
  : M (gmap string pyval) :=
  match parse_submit_try submit_file with
  | (config, Some e) =>
      print_stderr ("Warning: Could not parse submit file: " +:+ e) ;;;
      ret config
  | (config, None) => ret config
  end.

(** *** _parse_log_file *)

(** [int(s)] on a capture of [\d+], with the message of the ValueError
    when it raises: such a string fails by the limit on digits and in no
    other way (see [int_capture]). *)
Definition int_or_raise (s : string) : string + Z :=
  match Str.int s with
  | Some z => inr z
  | None => inl (Str.int_error s)
  end.

(** [h, m, s = map(int, time_str.split(':'))], then the sum: the three
    fields are converted in turn and the first that fails raises.  A
    capture of the runtime pattern always has three fields (see
    [digits_time_shape]), so the unpacking itself cannot fail. *)
Definition runtime_seconds (time_str : string) : string + Z :=
  match Str.split ":" time_str with
  | [h; m; s] =>
      match int_or_raise h with
      | inl e => inl e
      | inr h =>
          match int_or_raise m with
          | inl e => inl e
          | inr m =>
              match int_or_raise s with
              | inl e => inl e
              | inr s => inr (h * 3600 + m * 60 + s)
              end
          end
      end
  | _ => inl "ValueError"
  end.

(** The part of the try block after [f.read()]. *)
Definition parse_log_content (content : string)
  : string + gmap string pyval :=
  let metrics : gmap string pyval := ∅ in
  match
    match Re.search Re.runtime_re content with
    | Some runtime_match =>
        match runtime_seconds (Re.group1 runtime_match) with
        | inr secs => inr (<["runtime_seconds" := PInt secs]> metrics)
        | inl e => inl e
        end
    | None => inr metrics
    end
  with
  | inl e => inl e
  | inr metrics =>
      match
        match Re.search Re.memory_re content with
        | Some memory_match =>
            match int_or_raise (Re.group1 memory_match) with
            | inr n => inr (<["memory_mb" := PInt n]> metrics)
            | inl e => inl e
            end
        | None => inr metrics
        end
      with
      | inl e => inl e
      | inr metrics =>
          match Re.search Re.disk_re content with
          | Some disk_match =>
              match int_or_raise (Re.group1 disk_match) with
              | inr n => inr (<["disk_kb" := PInt n]> metrics)
              | inl e => inl e
              end
          | None => inr metrics
          end
      end
  end.

Definition parse_log_try (log_file : string) : string + gmap string pyval :=
  match open_read fs log_file with
  | Unreadable e => inl e
  | Readable content => parse_log_content content
  | Truncated _ e => inl e
  end.

Definition _parse_log_file (log_file : string)
  : M (option (gmap string pyval)) :=
  match parse_log_try log_file with
  | inl e =>
      print_stderr ("Warning: Could not parse log file: " +:+ e) ;;;
      ret None
  | inr metrics =>
      ret (if bool_decide (metrics ≠ ∅) then Some metrics else None)
  end.

(** *** init_run *)

(** [name or f"chtc-job-{job_id}" if job_id else None]: the conditional
    expression binds weaker than [or]. *)
Definition run_name (name job_id : option string) : option string :=
  if truthy_str job_id then
    if truthy_str name then name
    else Some ("chtc-job-" +:+ default "" job_id)
  else None.

Definition run_config (config : option (gmap string pyval))
  (job_id : option string) : gmap string pyval :=
  let config := or_empty_dict config in
  let config :=
    if truthy_str job_id
    then <["htcondor_job_id" := PStr (default "" job_id)]> config
    else config in
  <["cluster" := PStr "chtc"]> config.

(** Returns the run; the only thing the program reads of it is its id. *)
Definition init_run (project : string) (name : option string)
  (config : option (gmap string pyval)) (tags : option (list string))
  (job_id : option string) : M string :=
  let run_tags := or_empty_list tags ++ ["chtc"] in
  call backend
    (InitNew project (run_name name job_id) (run_config config job_id)
       run_tags (entity self)).

(** *** log_job_submission *)

Definition log_job_submission (project submit_file job_id : string)
  (config : option (gmap string pyval)) : M string :=
  submit_config <-- _parse_submit_file submit_file ;;
  (* {**submit_config, **(config or {})}: the right operand wins *)
  let full_config := or_empty_dict config ∪ submit_config in
  run_id <-- init_run project None (Some full_config) None (Some job_id) ;;
  let artifact := "submit-" +:+ job_id in
  call backend (NewArtifact artifact "submit_file") ;;;
  call backend (AddFile artifact submit_file) ;;;
  call backend (LogArtifact artifact "submit_file" [submit_file]) ;;;
  call backend RunFinish ;;;
  ret run_id.

(** *** log_job_completion *)

(** The loop over the output files: the files added to the artifact. *)
Fixpoint add_existing (artifact : string) (output_files : list string)
  : M (list string) :=
  match output_files with
  | [] => ret []
  | output_file :: rest =>
      if path_exists fs output_file then
        call backend (AddFile artifact output_file) ;;;
        added <-- add_existing artifact rest ;;
        ret (output_file :: added)
      else add_existing artifact rest
  end.

Definition log_job_completion (run_id : string) (log_file : option string)
  (output_files : option (list string))
  (metrics : option (gmap string pyval)) : M unit :=
  call backend (InitResumeMust run_id) ;;;
  (if truthy_str log_file && path_exists fs (default "" log_file) then
     let log_file := default "" log_file in
     resource_usage <-- _parse_log_file log_file ;;
     (if truthy_dict resource_usage
      then call backend (RunLog (or_empty_dict resource_usage)) ;;; ret tt
      else ret tt) ;;;
     let artifact := "logs-" +:+ run_id in
     call backend (NewArtifact artifact "logs") ;;;
     call backend (AddFile artifact log_file) ;;;
     call backend (LogArtifact artifact "logs" [log_file]) ;;;
     ret tt
   else ret tt) ;;;
  (if truthy_dict metrics
   then call backend (RunLog (or_empty_dict metrics)) ;;; ret tt
   else ret tt) ;;;
  (if truthy_list output_files then
     let artifact := "outputs-" +:+ run_id in
     call backend (NewArtifact artifact "results") ;;;
     added <-- add_existing artifact (or_empty_list output_files) ;;
     call backend (LogArtifact artifact "results" added) ;;;
     ret tt
   else ret tt) ;;;
  call backend RunFinish ;;;
  ret tt.

End Logger.

(** * Properties *)

(** ** Strings *)

Lemma split_first_Some c s a b :
  Str.split_first c s = Some (a, b) ->
  s = a +:+ String c b /\ Str.contains_char c a = false.
Proof.
  revert a b. induction s as [|c' s IH]; intros a b; simpl; [done|].
  destruct (Ascii.eqb c' c) eqn:E.
  - apply Ascii.eqb_eq in E. subst. intros [= <- <-]. done.
  - destruct (Str.split_first c s) as [[a' b']|]; [|done].
    intros [= <- <-]. destruct (IH _ _ eq_refl) as [-> H]. simpl. rewrite E. done.
Qed.

Lemma split_first_app c a b :
  Str.contains_char c a = false ->
  Str.split_first c (a +:+ String c b) = Some (a, b).
Proof.
  induction a as [|c' a IH]; simpl.
  - intros _. by rewrite Ascii.eqb_refl.
  - destruct (Ascii.eqb c' c); [done|]. simpl. intros H. by rewrite IH.
Qed.

Lemma split_first_None c s :
  Str.split_first c s = None -> Str.contains_char c s = false.
Proof.
  induction s as [|c' s IH]; simpl; [done|].
  destruct (Ascii.eqb c' c); [done|].
  destruct (Str.split_first c s) as [[? ?]|]; [done|]. auto.
Qed.

Lemma contains_char_app c a b :
  Str.contains_char c (a +:+ b)
  = Str.contains_char c a || Str.contains_char c b.
Proof.
  induction a as [|c' a IH]; simpl; [done|]. rewrite IH. by rewrite orb_assoc.
Qed.

(** ** Submit descriptors *)

(** The keys the extraction keeps. *)
Definition allow_list : list string :=
  ["request_cpus"; "request_memory"; "request_disk"; "executable"; "universe"].

(** A line of the descriptor gives the pair [(key, value)]: it is not blank
    and not a comment, it holds an equals sign, [key] is the text before the
    first one, trimmed and in lower case, [value] is the text after it,
    trimmed, and [key] is in the allow-list. *)
Definition yields (raw key value : string) : Prop :=
  let line := Str.strip raw in
  line <> "" /\
  Str.startswith_char "#" line = false /\
  exists before after,
    line = before +:+ String "=" after /\
    Str.contains_char "=" before = false /\
    key = Str.lower (Str.strip before) /\
    value = Str.strip after /\
    key ∈ allow_list.

Lemma yields_fun raw k v k' v' :
  yields raw k v -> yields raw k' v' -> k = k' /\ v = v'.
Proof.
  intros (_ & _ & b & a & E & Hb & -> & -> & _)
         (_ & _ & b' & a' & E' & Hb' & -> & -> & _).
  pose proof (split_first_app "=" b a Hb) as H1.
  pose proof (split_first_app "=" b' a' Hb') as H2.
  rewrite <- E in H1. rewrite <- E' in H2. rewrite H1 in H2.
  by injection H2 as -> ->.
Qed.

Lemma parse_submit_line_yields config raw k v :
  yields raw k v -> parse_submit_line config raw = <[k := PStr v]> config.
Proof.
  intros (Hne & Hc & b & a & E & Hb & -> & -> & Hin).
  unfold parse_submit_line. cbv zeta.
  rewrite bool_decide_eq_false_2 by done. rewrite Hc. simpl.
  rewrite E, (split_first_app _ _ _ Hb).
  unfold allow_list in Hin.
  destruct (decide (Str.lower (Str.strip b)
                    ∈ ["request_cpus"; "request_memory"; "request_disk"]))
    as [H3|H3].
  { by rewrite bool_decide_eq_true_2. }
  rewrite bool_decide_eq_false_2 by done.
  destruct (decide (Str.lower (Str.strip b) = "executable")) as [He|He].
  { rewrite bool_decide_eq_true_2 by done. by rewrite He. }
  rewrite bool_decide_eq_false_2 by done.
  destruct (decide (Str.lower (Str.strip b) = "universe")) as [Hu|Hu].
  { rewrite bool_decide_eq_true_2 by done. by rewrite Hu. }
  exfalso. repeat rewrite elem_of_cons in Hin. repeat rewrite elem_of_cons in H3.
  pose proof (not_elem_of_nil (Str.lower (Str.strip b))). tauto.
Qed.

Lemma parse_submit_line_other config raw :
  (forall k v, ~ yields raw k v) -> parse_submit_line config raw = config.
Proof.
  intros Hn. unfold parse_submit_line. cbv zeta.
  case_bool_decide as Hne; [done|].
  destruct (Str.startswith_char "#" (Str.strip raw)) eqn:Hc; [done|]. simpl.
  destruct (Str.split_first "=" (Str.strip raw)) as [[b a]|] eqn:Hs; [|done].
  apply split_first_Some in Hs as [E Hb].
  assert (Str.lower (Str.strip b) ∈ allow_list -> False) as Hout.
  { intros Hin. eapply Hn. split; [done|]. split; [done|]. eauto 10. }
  unfold allow_list in Hout.
  repeat rewrite elem_of_cons in Hout.
  rewrite bool_decide_eq_false_2 by (repeat rewrite elem_of_cons; tauto).
  rewrite !bool_decide_eq_false_2 by tauto.
  done.
Qed.

Lemma yields_dec raw :
  (exists k v, yields raw k v) \/ (forall k v, ~ yields raw k v).
Proof.
  unfold yields. cbv zeta.
  destruct (decide (Str.strip raw = "")) as [->|Hne].
  { right. intros k v [H _]. done. }
  destruct (Str.startswith_char "#" (Str.strip raw)) eqn:Hc.
  { right. intros k v (_ & H & _). done. }
  destruct (Str.split_first "=" (Str.strip raw)) as [[b a]|] eqn:Hs.
  - pose proof Hs as Hs'. apply split_first_Some in Hs' as [E Hb].
    destruct (decide (Str.lower (Str.strip b) ∈ allow_list)) as [Hin|Hout].
    + left. eauto 12.
    + right. intros k v (_ & _ & b' & a' & E' & Hb' & -> & -> & Hin).
      pose proof (split_first_app "=" b' a' Hb') as H2.
      rewrite <- E', Hs in H2. injection H2 as -> ->. done.
  - right. intros k v (_ & _ & b' & a' & E' & Hb' & _).
    apply split_first_None in Hs. rewrite E', contains_char_app in Hs.
    simpl in Hs. rewrite orb_true_r in Hs. done.
Qed.

(** The last line that gives a pair for [key] gives [value]. *)
Definition last_yield (lines : list string) (key value : string) : Prop :=
  exists l1 raw l2,
    lines = l1 ++ raw :: l2 /\
    yields raw key value /\
    forall raw' v', raw' ∈ l2 -> ~ yields raw' key v'.

Lemma last_yield_snoc lines x k v :
  last_yield (lines ++ [x]) k v <->
  yields x k v \/ ((forall v', ~ yields x k v') /\ last_yield lines k v).
Proof.
  split.
  - intros (l1 & raw & l2 & E & Hy & Hl).
    destruct l2 as [|y l2 _] using rev_ind.
    + apply app_inj_tail in E as [-> ->]. by left.
    + rewrite app_comm_cons, app_assoc in E.
      apply app_inj_tail in E as [-> ->]. right. split.
      * intros v'. apply Hl. apply elem_of_app. right. by left.
      * exists l1, raw, l2. split; [done|]. split; [done|].
        intros r v' Hr. apply Hl. apply elem_of_app. by left.
  - intros [Hy|[Hn (l1 & raw & l2 & -> & Hy & Hl)]].
    + exists lines, x, []. split; [done|]. split; [done|].
      intros r v' Hr. by apply elem_of_nil in Hr.
    + exists l1, raw, (l2 ++ [x]). rewrite <- app_assoc. split; [done|].
      split; [done|].
      intros r v' [Hr | ->%list_elem_of_singleton]%elem_of_app;
        [by apply Hl|by apply Hn].
Qed.

Lemma parse_submit_lines_lookup lines k v :
  foldl parse_submit_line ∅ lines !! k = Some v <->
  exists s, v = PStr s /\ last_yield lines k s.
Proof.
  revert v. induction lines as [|x lines IH] using rev_ind; intros v.
  - simpl. rewrite lookup_empty. split; [done|].
    intros (s & _ & l1 & raw & l2 & E & _). by destruct l1.
  - rewrite foldl_app. simpl.
    destruct (yields_dec x) as [(k0 & v0 & Hy)|Hn].
    + rewrite (parse_submit_line_yields _ _ _ _ Hy).
      destruct (decide (k0 = k)) as [->|Hk].
      * rewrite lookup_insert_eq. split.
        -- intros [= <-]. exists v0. split; [done|]. apply last_yield_snoc. by left.
        -- intros (s & -> & [Hy'|[Hn' _]]%last_yield_snoc).
           ++ by destruct (yields_fun _ _ _ _ _ Hy Hy') as [_ ->].
           ++ by destruct (Hn' v0).
      * rewrite lookup_insert_ne by done. rewrite IH. split.
        -- intros (s & -> & Hl). exists s. split; [done|]. apply last_yield_snoc.
           right. split; [|done]. intros v' Hy'.
           by destruct (yields_fun _ _ _ _ _ Hy Hy') as [? _].
        -- intros (s & -> & [Hy'|[_ Hl]]%last_yield_snoc).
           ++ by destruct (yields_fun _ _ _ _ _ Hy Hy') as [? _].
           ++ eauto.
    + rewrite (parse_submit_line_other _ _ Hn). rewrite IH. split.
      * intros (s & -> & Hl). exists s. split; [done|]. apply last_yield_snoc.
        right. split; [|done]. intros v'. apply Hn.
      * intros (s & -> & [Hy'|[_ Hl]]%last_yield_snoc); [by destruct (Hn _ _ Hy')|eauto].
Qed.

(** ** What a regex capture looks like *)

Fixpoint all_chars (p : ascii -> bool) (s : string) : bool :=
  match s with
  | EmptyString => true
  | String c s' => p c && all_chars p s'
  end.

(** The words a pattern can consume, whatever the priorities. *)
Fixpoint lang (r : Re.regex) (w : string) : Prop :=
  match r with
  | Re.Lit l => w = l
  | Re.Star _ p => all_chars p w = true
  | Re.Plus p => w <> "" /\ all_chars p w = true
  | Re.Seq r1 r2 => exists u v, w = u +:+ v /\ lang r1 u /\ lang r2 v
  | Re.Group r1 => lang r1 w
  end.

(** The pattern ends with its capture group [g]. *)
Inductive ends_in_group (g : Re.regex) : Re.regex -> Prop :=
| eg_group : ends_in_group g (Re.Group g)
| eg_seq r1 r2 : ends_in_group g r2 -> ends_in_group g (Re.Seq r1 r2).

Lemma append_assoc (a b c : string) : (a +:+ b) +:+ c = a +:+ b +:+ c.
Proof. induction a as [|x a IH]; [done|]. exact (f_equal (String x) IH). Qed.

Lemma length_append (a b : string) :
  String.length (a +:+ b) = (String.length a + String.length b)%nat.
Proof. induction a as [|x a IH]; simpl; [done|]. by rewrite IH. Qed.

Lemma consumed_append w s : Re.consumed (w +:+ s) s = w.
Proof.
  unfold Re.consumed. rewrite length_append.
  replace (String.length w + String.length s - String.length s)%nat
    with (String.length w) by lia.
  induction w as [|x w IH]; simpl.
  - by destruct s.
  - by rewrite IH.
Qed.

Lemma lit_sound l s s' : Re.lit l s = Some s' -> s = l +:+ s'.
Proof.
  revert s. induction l as [|a l IH]; intros s; simpl.
  - by intros [= ->].
  - destruct s as [|b s]; [done|].
    destruct (Ascii.eqb a b) eqn:E; [|done].
    apply Ascii.eqb_eq in E as ->. intros H. by rewrite (IH _ H).
Qed.

Lemma star_lazy_sound p k s res :
  Re.star_lazy p k s = Some res ->
  exists w s', s = w +:+ s' /\ all_chars p w = true /\ k s' = Some res.
Proof.
  induction s as [|c s IH]; simpl.
  - destruct (k "") eqn:E; [|done]. intros [= <-]. by exists "", "".
  - destruct (k (String c s)) eqn:E.
    + intros [= <-]. by exists "", (String c s).
    + destruct (p c) eqn:Hp; [|done]. intros H.
      destruct (IH H) as (w & s' & -> & Hw & Hk).
      exists (String c w), s'. simpl. by rewrite Hp, Hw.
Qed.

Lemma star_greedy_sound p k s res :
  Re.star_greedy p k s = Some res ->
  exists w s', s = w +:+ s' /\ all_chars p w = true /\ k s' = Some res.
Proof.
  induction s as [|c s IH]; simpl.
  - intros H. by exists "", "".
  - destruct (p c) eqn:Hp.
    + destruct (Re.star_greedy p k s) eqn:E.
      * intros [= <-]. destruct (IH eq_refl) as (w & s' & -> & Hw & Hk).
        exists (String c w), s'. simpl. by rewrite Hp, Hw.
      * intros H. by exists "", (String c s).
    + intros H. by exists "", (String c s).
Qed.

Lemma plus_greedy_sound p k s res :
  Re.plus_greedy p k s = Some res ->
  exists w s',
    s = w +:+ s' /\ w <> "" /\ all_chars p w = true /\ k s' = Some res.
Proof.
  destruct s as [|c s]; simpl; [done|].
  destruct (p c) eqn:Hp; [|done]. intros H.
  destruct (star_greedy_sound _ _ _ _ H) as (w & s' & -> & Hw & Hk).
  exists (String c w), s'. simpl. by rewrite Hp, Hw.
Qed.

Lemma rmatch_sound r s cap k res :
  Re.rmatch r s cap k = Some res ->
  exists w s' cap', s = w +:+ s' /\ lang r w /\ k s' cap' = Some res.
Proof.
  revert s cap k. induction r as [l|g p|p|r1 IH1 r2 IH2|r1 IH1];
    intros s cap k; simpl.
  - destruct (Re.lit l s) as [s'|] eqn:E; [|done]. intros H.
    apply lit_sound in E as ->. by exists l, s', cap.
  - destruct g; intros H.
    + destruct (star_greedy_sound _ _ _ _ H) as (w & s' & -> & Hw & Hk).
      by exists w, s', cap.
    + destruct (star_lazy_sound _ _ _ _ H) as (w & s' & -> & Hw & Hk).
      by exists w, s', cap.
  - intros H.
    destruct (plus_greedy_sound _ _ _ _ H) as (w & s' & -> & Hne & Hw & Hk).
    by exists w, s', cap.
  - intros H. destruct (IH1 _ _ _ H) as (u & s1 & cap1 & -> & Hu & H1).
    destruct (IH2 _ _ _ H1) as (v & s2 & cap2 & -> & Hv & H2).
    exists (u +:+ v), s2, cap2. rewrite append_assoc. eauto 10.
  - intros H. destruct (IH1 _ _ _ H) as (w & s' & cap' & -> & Hw & Hk).
    exists w, s', (Some (Re.consumed (w +:+ s') s')). done.
Qed.

Lemma rmatch_capture g r s cap res :
  ends_in_group g r ->
  Re.rmatch r s cap (fun _ c => Some c) = Some res ->
  exists w, res = Some w /\ lang g w.
Proof.
  intros Hg. revert s cap. induction Hg as [|r1 r2 Hg IH]; intros s cap; simpl.
  - intros H. destruct (rmatch_sound _ _ _ _ _ H) as (w & s' & _ & -> & Hw & Hk).
    rewrite consumed_append in Hk. injection Hk as <-. eauto.
  - intros H. destruct (rmatch_sound _ _ _ _ _ H) as (_ & s' & cap' & _ & _ & Hk).
    eauto.
Qed.

Lemma search_capture g r s res :
  ends_in_group g r ->
  Re.search r s = Some res ->
  exists w, res = Some w /\ lang g w.
Proof.
  intros Hg. induction s as [|c s IH]; simpl.
  - destruct (Re.match_here r "") eqn:E; [|done]. intros [= <-].
    eapply rmatch_capture; eauto.
  - destruct (Re.match_here r (String c s)) eqn:E.
    + intros [= <-]. eapply rmatch_capture; eauto.
    + done.
Qed.

Lemma runtime_re_group : ends_in_group Re.digits_time Re.runtime_re.
Proof. repeat constructor. Qed.

Lemma memory_re_group : ends_in_group (Re.Plus Str.isdigit) Re.memory_re.
Proof. repeat constructor. Qed.

Lemma disk_re_group : ends_in_group (Re.Plus Str.isdigit) Re.disk_re.
Proof. repeat constructor. Qed.

(** ** Numbers in captures *)

(** A non-empty string of decimal digits. *)
Definition is_number (s : string) : Prop :=
  s <> "" /\ all_chars Str.isdigit s = true.

Lemma int_acc_digits acc s :
  all_chars Str.isdigit s = true -> 0 <= acc ->
  exists z, Str.int_acc acc s = Some z /\ 0 <= z.
Proof.
  revert acc. induction s as [|c s IH]; intros acc; simpl.
  - eauto.
  - intros [Hc Hs]%andb_true_iff Hacc. rewrite Hc. apply IH; [done|].
    unfold Str.isdigit in Hc. cbv zeta in Hc.
    apply andb_true_iff in Hc as [H1%N.leb_le _]. unfold Str.digit_val. lia.
Qed.

Lemma over_long_int s : Str.over_long s = true -> Str.int s = None.
Proof. intros H. destruct s; [done|]. unfold Str.int. by rewrite H. Qed.

Lemma int_number s :
  is_number s -> Str.over_long s = false ->
  exists z, Str.int s = Some z /\ 0 <= z.
Proof.
  intros [Hne Hd] Hlen. destruct s as [|c s]; [done|].
  unfold Str.int. rewrite Hlen. by apply int_acc_digits.
Qed.

Lemma split_digits_end s :
  all_chars Str.isdigit s = true -> Str.split ":" s = [s].
Proof.
  induction s as [|c s IH]; simpl; [done|].
  intros [Hc Hs]%andb_true_iff.
  destruct (Ascii.eqb c ":") eqn:E.
  - apply Ascii.eqb_eq in E as ->. done.
  - by rewrite (IH Hs).
Qed.

Lemma split_digits_colon u v :
  all_chars Str.isdigit u = true ->
  Str.split ":" (u +:+ String ":" v) = u :: Str.split ":" v.
Proof.
  induction u as [|c u IH]; simpl; [done|].
  intros [Hc Hs]%andb_true_iff.
  destruct (Ascii.eqb c ":") eqn:E.
  - apply Ascii.eqb_eq in E as ->. done.
  - by rewrite (IH Hs).
Qed.

(** A capture of the runtime pattern is three numbers between colons. *)
Lemma digits_time_shape w :
  lang Re.digits_time w ->
  exists h m s,
    w = h +:+ ":" +:+ m +:+ ":" +:+ s /\
    is_number h /\ is_number m /\ is_number s.
Proof.
  simpl. intros (h & ? & -> & Hh & ? & ? & -> & -> & m & ? & -> & Hm
                 & ? & s & -> & -> & Hs).
  exists h, m, s. done.
Qed.

(** ** Completion logs *)

(** The text is [H:M:S] for three numbers, and [secs] is the total. *)
Definition hms_value (t : string) (secs : Z) : Prop :=
  exists hs ms ss H M S,
    t = hs +:+ ":" +:+ ms +:+ ":" +:+ ss /\
    Str.int hs = Some H /\ Str.int ms = Some M /\ Str.int ss = Some S /\
    secs = H * 3600 + M * 60 + S.

(** What [int_or_raise] does with a number. *)
Lemma int_capture t :
  lang (Re.Plus Str.isdigit) t ->
  if Str.over_long t then int_or_raise t = inl (Str.int_error t)
  else exists n, int_or_raise t = inr n /\ Str.int t = Some n /\ 0 <= n.
Proof.
  intros Hn. unfold int_or_raise. destruct (Str.over_long t) eqn:Hlen.
  - by rewrite (over_long_int _ Hlen).
  - destruct (int_number t Hn Hlen) as (n & -> & Hpos). eauto.
Qed.

(** What [runtime_seconds] does with a capture of the runtime pattern: the
    first of its three numbers that is over-long raises, and without one
    the result is the total. *)
Lemma runtime_seconds_capture t :
  lang Re.digits_time t ->
  exists hs ms ss,
    Str.split ":" t = [hs; ms; ss] /\
    match List.find Str.over_long [hs; ms; ss] with
    | Some part => runtime_seconds t = inl (Str.int_error part)
    | None => exists secs, runtime_seconds t = inr secs /\ hms_value t secs
    end.
Proof.
  intros (hs & ms & ss & -> & Hh & Hm & Hs)%digits_time_shape.
  exists hs, ms, ss.
  assert (Str.split ":" (hs +:+ ":" +:+ ms +:+ ":" +:+ ss) = [hs; ms; ss])
    as Hsplit.
  { change (hs +:+ ":" +:+ ms +:+ ":" +:+ ss)
      with (hs +:+ String ":" (ms +:+ String ":" ss)).
    rewrite (split_digits_colon _ _ (proj2 Hh)).
    rewrite (split_digits_colon _ _ (proj2 Hm)).
    by rewrite (split_digits_end _ (proj2 Hs)). }
  split; [exact Hsplit|].
  unfold runtime_seconds. rewrite Hsplit. cbn [List.find].
  pose proof (int_capture hs Hh) as Ch.
  pose proof (int_capture ms Hm) as Cm.
  pose proof (int_capture ss Hs) as Cs.
  destruct (Str.over_long hs); [by rewrite Ch|].
  destruct Ch as (nh & -> & Eh & _).
  destruct (Str.over_long ms); [by rewrite Cm|].
  destruct Cm as (nm & -> & Em & _).
  destruct (Str.over_long ss); [by rewrite Cs|].
  destruct Cs as (ns & -> & Es & _).
  exists (nh * 3600 + nm * 60 + ns). split; [done|].
  exists hs, ms, ss, nh, nm, ns. done.
Qed.

(** The first log of the design document's examples. *)
Definition nl : string := String Str.LF "".

Definition example_log : string :=
  "Job terminated ... run time 01:02:03" +:+ nl +:+
  "Memory (MB)        : 2048" +:+ nl +:+
  "Disk (KB)            : 512000" +:+ nl.

Definition example_fs : filesystem := {|
  path_exists p := bool_decide (p = "job.log");
  open_read p :=
    if bool_decide (p = "job.log") then Readable example_log
    else Unreadable "FileNotFoundError"
|}.

Example example_log_parse :
  parse_log_content example_log
  = inr {[ "runtime_seconds" := PInt 3723; "memory_mb" := PInt 2048;
           "disk_kb" := PInt 512000 ]}.
Proof. vm_compute. reflexivity. Qed.

(** What [_parse_log_file] records for one search: nothing when the search
    fails, the converted capture otherwise. *)
Definition recorded (found : option Re.result) (value : string -> Z -> Prop)
  (entry : option pyval) : Prop :=
  match found with
  | Some t => exists n, value (Re.group1 t) n /\ entry = Some (PInt n)
  | None => entry = None
  end.

Definition int_value (t : string) (n : Z) : Prop := Str.int t = Some n.

(** The numbers of [content] that [int] is given, in the order of the try
    block: the three of the runtime capture, the memory capture, the disk
    capture, each when its pattern matches. *)
Definition log_numbers (content : string) : list string :=
  match Re.search Re.runtime_re content with
  | Some t => Str.split ":" (Re.group1 t)
  | None => []
  end ++
  match Re.search Re.memory_re content with
  | Some t => [Re.group1 t]
  | None => []
  end ++
  match Re.search Re.disk_re content with
  | Some t => [Re.group1 t]
  | None => []
  end.

(** The entries of [metrics] are what the three searches give. *)
Definition fields_recorded (content : string) (metrics : gmap string pyval)
  : Prop :=
  recorded (Re.search Re.runtime_re content) hms_value
    (metrics !! "runtime_seconds") /\
  recorded (Re.search Re.memory_re content) int_value
    (metrics !! "memory_mb") /\
  recorded (Re.search Re.disk_re content) int_value
    (metrics !! "disk_kb") /\
  (forall k, k ∉ ["runtime_seconds"; "memory_mb"; "disk_kb"] ->
             metrics !! k = None).

Lemma find_app_Some {A} (p : A -> bool) l1 l2 x :
  List.find p l1 = Some x -> List.find p (l1 ++ l2) = Some x.
Proof.
  induction l1 as [|y l1 IH]; simpl; [done|]. destruct (p y); [done|]. exact IH.
Qed.

Lemma find_app_None {A} (p : A -> bool) l1 l2 :
  List.find p l1 = None -> List.find p (l1 ++ l2) = List.find p l2.
Proof.
  induction l1 as [|y l1 IH]; simpl; [done|]. destruct (p y); [done|]. exact IH.
Qed.

(** One conversion of the try block: the entry it adds, or the exception. *)
Definition int_step (found : option Re.result) (key : string)
  (metrics : gmap string pyval) : string + gmap string pyval :=
  match found with
  | Some t =>
      match int_or_raise (Re.group1 t) with
      | inr n => inr (<[key := PInt n]> metrics)
      | inl e => inl e
      end
  | None => inr metrics
  end.

Lemma int_step_spec r content key metrics :
  ends_in_group (Re.Plus Str.isdigit) r ->
  metrics !! key = None ->
  match List.find Str.over_long
          match Re.search r content with
          | Some t => [Re.group1 t]
          | None => []
          end with
  | Some s => int_step (Re.search r content) key metrics = inl (Str.int_error s)
  | None =>
      exists metrics',
        int_step (Re.search r content) key metrics = inr metrics' /\
        recorded (Re.search r content) int_value (metrics' !! key) /\
        (Re.search r content = None -> metrics' = metrics) /\
        (forall k, k <> key -> metrics' !! k = metrics !! k)
  end.
Proof.
  intros Hg Hfresh. unfold int_step.
  destruct (Re.search r content) as [t|] eqn:E.
  - destruct (search_capture _ _ _ _ Hg E) as (w & -> & L).
    change (Re.group1 (Some w)) with w. cbn [List.find].
    pose proof (int_capture w L) as C.
    destruct (Str.over_long w); [by rewrite C|].
    destruct C as (n & -> & En & _).
    eexists. split; [reflexivity|]. split; [|split].
    + exists n. split; [exact En|]. apply lookup_insert_eq.
    + done.
    + intros k Hk. by apply lookup_insert_ne.
  - exists metrics. simpl. done.
Qed.

Lemma parse_log_content_steps content :
  parse_log_content content =
    match
      match Re.search Re.runtime_re content with
      | Some runtime_match =>
          match runtime_seconds (Re.group1 runtime_match) with
          | inr secs => inr (<["runtime_seconds" := PInt secs]> ∅)
          | inl e => inl e
          end
      | None => inr ∅
      end
    with
    | inl e => inl e
    | inr metrics =>
        match int_step (Re.search Re.memory_re content) "memory_mb" metrics with
        | inl e => inl e
        | inr metrics =>
            int_step (Re.search Re.disk_re content) "disk_kb" metrics
        end
    end.
Proof. reflexivity. Qed.

(** The try block of [_parse_log_file] on the text of the log: the first
    over-long number raises; without one the three searches are recorded. *)
Lemma parse_log_content_spec content :
  match List.find Str.over_long (log_numbers content) with
  | Some s => parse_log_content content = inl (Str.int_error s)
  | None =>
      exists metrics,
        parse_log_content content = inr metrics /\
        fields_recorded content metrics
  end.
Proof.
  rewrite parse_log_content_steps. unfold log_numbers, fields_recorded.
  pose proof (fun m => int_step_spec Re.memory_re content "memory_mb" m
                        memory_re_group) as Hmem.
  pose proof (fun m => int_step_spec Re.disk_re content "disk_kb" m
                        disk_re_group) as Hdisk.
  assert (exists (m1 : gmap string pyval) l1,
             l1 = match Re.search Re.runtime_re content with
                  | Some t => Str.split ":" (Re.group1 t)
                  | None => []
                  end /\
             match List.find Str.over_long l1 with
             | Some s =>
                 match Re.search Re.runtime_re content with
                 | Some runtime_match =>
                     match runtime_seconds (Re.group1 runtime_match) with
                     | inr secs => inr (<["runtime_seconds" := PInt secs]> ∅)
                     | inl e => inl e
                     end
                 | None => inr ∅
                 end = (inl (Str.int_error s) : string + gmap string pyval)
             | None =>
                 match Re.search Re.runtime_re content with
                 | Some runtime_match =>
                     match runtime_seconds (Re.group1 runtime_match) with
                     | inr secs => inr (<["runtime_seconds" := PInt secs]> ∅)
                     | inl e => inl e
                     end
                 | None => inr ∅
                 end = inr m1 /\
                 recorded (Re.search Re.runtime_re content) hms_value
                   (m1 !! "runtime_seconds") /\
                 (forall k, k <> "runtime_seconds" -> m1 !! k = None)
             end) as (m1 & l1 & -> & Hrt).
  { destruct (Re.search Re.runtime_re content) as [t|] eqn:E.
    - destruct (search_capture _ _ _ _ runtime_re_group E) as (w & -> & L).
      change (Re.group1 (Some w)) with w.
      destruct (runtime_seconds_capture w L) as (hs & ms & ss & Hsplit & Hrun).
      rewrite Hsplit.
      destruct (List.find Str.over_long [hs; ms; ss]) as [part|] eqn:F.
      + exists ∅, [hs; ms; ss]. split; [done|]. rewrite F. by rewrite Hrun.
      + destruct Hrun as (secs & -> & Hv).
        exists (<["runtime_seconds" := PInt secs]> ∅), [hs; ms; ss].
        split; [done|]. rewrite F. split; [done|]. split.
        * exists secs. split; [done|]. apply lookup_insert_eq.
        * intros k Hk. rewrite lookup_insert_ne by done. apply lookup_empty.
    - exists ∅, []. split; [done|]. cbn [List.find]. split; [done|].
      split; [done|]. intros k _. apply lookup_empty. }
  destruct (List.find Str.over_long
              match Re.search Re.runtime_re content with
              | Some t => Str.split ":" (Re.group1 t)
              | None => []
              end) as [s1|] eqn:F1.
  { rewrite (find_app_Some _ _ _ _ F1). by rewrite Hrt. }
  rewrite (find_app_None _ _ _ F1). destruct Hrt as (-> & Rrt & Ort).
  specialize (Hmem m1 (Ort "memory_mb" ltac:(done))).
  destruct (List.find Str.over_long
              match Re.search Re.memory_re content with
              | Some t => [Re.group1 t]
              | None => []
              end) as [s2|] eqn:F2.
  { rewrite (find_app_Some _ _ _ _ F2). by rewrite Hmem. }
  rewrite (find_app_None _ _ _ F2).
  destruct Hmem as (m2 & -> & Rmem & _ & Omem).
  assert (m2 !! "disk_kb" = None) as Hfresh
    by (rewrite Omem by done; by apply Ort).
  specialize (Hdisk m2 Hfresh).
  destruct (List.find Str.over_long
              match Re.search Re.disk_re content with
              | Some t => [Re.group1 t]
              | None => []
              end) as [s3|] eqn:F3.
  { by rewrite Hdisk. }
  destruct Hdisk as (m3 & -> & Rdisk & _ & Odisk).
  exists m3. split; [done|]. split; [|split; [|split]].
  - rewrite Odisk by done. by rewrite Omem.
  - by rewrite Odisk.
  - done.
  - intros k Hk. repeat rewrite not_elem_of_cons in Hk.
    destruct Hk as (K1 & K2 & K3 & _).
    rewrite Odisk by done. rewrite Omem by done. by apply Ort.
Qed.

(** When the try block does not raise, the searches are recorded and no
    number was over-long. *)
Lemma parse_log_content_fields content metrics :
  parse_log_content content = inr metrics ->
  List.find Str.over_long (log_numbers content) = None /\
  fields_recorded content metrics.
Proof.
  intros Hrun. pose proof (parse_log_content_spec content) as Hspec.
  destruct (List.find Str.over_long (log_numbers content)) as [s|].
  - by rewrite Hspec in Hrun.
  - destruct Hspec as (m & Hm & Hf). rewrite Hm in Hrun.
    by injection Hrun as <-.
Qed.

(** ** Traces *)

Lemma bind_inr {A B} (m : M A) (f : A -> M B) h t1 a t2 r :
  m h = (t1, inr a) -> f a (h ++ t1) = (t2, r) -> bind m f h = (t1 ++ t2, r).
Proof. intros E1 E2. unfold bind. by rewrite E1, E2. Qed.

Lemma bind_inl {A B} (m : M A) (f : A -> M B) h t1 e :
  m h = (t1, inl e) -> bind m f h = (t1, inl e).
Proof. intros E1. unfold bind. by rewrite E1. Qed.

Section Traces.

Variable fs : filesystem.
Variable backend : backend_t.
Variable self : logger.

(** The SDK returns from every call that satisfies [P]. *)
Definition returns_on (P : event -> Prop) : Prop :=
  forall h ev, P ev -> exists v, backend h ev = Returns v.

(** [m] adds only events that satisfy [P], and raises only when the SDK
    raises on one of them. *)
Definition emits (P : event -> Prop) {A} (m : M A) : Prop :=
  forall h,
    Forall P (fst (m h)) /\
    (returns_on P -> exists a, snd (m h) = inr a).

Lemma emits_ret P {A} (a : A) : emits P (ret a).
Proof. intros h. simpl. eauto. Qed.

Lemma emits_print P msg : P (Stderr msg) -> emits P (print_stderr msg).
Proof. intros HP h. simpl. eauto. Qed.

Lemma emits_call P ev : P ev -> emits P (call backend ev).
Proof.
  intros HP h. unfold call. split.
  - destruct (backend h ev); simpl; eauto.
  - intros Hr. destruct (Hr h ev HP) as [v ->]. simpl. eauto.
Qed.

Lemma emits_bind P {A B} (m : M A) (f : A -> M B) :
  emits P m -> (forall a, emits P (f a)) -> emits P (bind m f).
Proof.
  intros Hm Hf h. unfold bind. destruct (Hm h) as [H1 H2].
  destruct (m h) as [t1 [e|a]]; simpl in *.
  - split; [done|]. intros Hr. destruct (H2 Hr) as [? [=]].
  - destruct (Hf a (h ++ t1)) as [H3 H4].
    destruct (f a (h ++ t1)) as [t2 r]; simpl in *. split.
    + by apply Forall_app.
    + done.
Qed.

Lemma emits_parse_submit P submit_file :
  (forall msg, P (Stderr msg)) -> emits P (_parse_submit_file fs submit_file).
Proof.
  intros HP. unfold _parse_submit_file.
  destruct (parse_submit_try fs submit_file) as [config [e|]].
  - apply emits_bind; [by apply emits_print|]. intros _. apply emits_ret.
  - apply emits_ret.
Qed.

Lemma emits_parse_log P log_file :
  (forall msg, P (Stderr msg)) -> emits P (_parse_log_file fs log_file).
Proof.
  intros HP. unfold _parse_log_file.
  destruct (parse_log_try fs log_file) as [e|metrics].
  - apply emits_bind; [by apply emits_print|]. intros _. apply emits_ret.
  - apply emits_ret.
Qed.

Lemma emits_add_existing P artifact output_files :
  (forall p, path_exists fs p = true -> P (AddFile artifact p)) ->
  emits P (add_existing fs backend artifact output_files).
Proof.
  intros HP. induction output_files as [|p l IH]; simpl.
  - apply emits_ret.
  - destruct (path_exists fs p) eqn:E; [|done].
    apply emits_bind; [by apply emits_call, HP|]. intros _.
    apply emits_bind; [done|]. intros added. apply emits_ret.
Qed.

(** The events a completion can add: no new run, and no file that does
    not exist. *)
Definition completion_event (ev : event) : Prop :=
  match ev with
  | InitNew _ _ _ _ _ => False
  | AddFile _ p => path_exists fs p = true
  | _ => True
  end.

(** How a call stands with [run.finish()]: when it returns, finish was
    its last event and happened once; when it raises, finish did not
    happen, unless it is finish itself that raised. *)
Definition finish_outcome {A} (h t : list event) (r : string + A) : Prop :=
  match r with
  | inr _ => exists pre, t = pre ++ [RunFinish] /\ RunFinish ∉ pre
  | inl e =>
      RunFinish ∉ t \/
      exists pre, t = pre ++ [RunFinish] /\ (RunFinish ∉ pre) /\
                  backend (h ++ pre) RunFinish = Raises e
  end.

Definition finishes_last {A} (m : M A) : Prop :=
  forall h, finish_outcome h (fst (m h)) (snd (m h)).

Lemma finishes_last_finish {A} (a : A) :
  finishes_last (call backend RunFinish ;;; ret a).
Proof.
  intros h. unfold bind, call, ret.
  destruct (backend h RunFinish) eqn:E; simpl.
  - exists []. split; [done|]. apply not_elem_of_nil.
  - right. exists []. rewrite app_nil_r. split; [done|].
    split; [apply not_elem_of_nil|done].
Qed.

Lemma finishes_last_bind {A B} (m : M A) (f : A -> M B) :
  emits (fun ev => ev <> RunFinish) m ->
  (forall a, finishes_last (f a)) ->
  finishes_last (bind m f).
Proof.
  intros Hm Hf h. unfold bind. destruct (Hm h) as [H1 _].
  destruct (m h) as [t1 [e|a]]; simpl in *.
  - left. intros Hin. by eapply Forall_forall in H1.
  - assert (RunFinish ∉ t1) as Hn1.
    { intros Hin. by eapply Forall_forall in H1. }
    specialize (Hf a (h ++ t1)).
    destruct (f a (h ++ t1)) as [t2 [e|b]]; simpl in *.
    + destruct Hf as [Hn|(pre & -> & Hn & Hb)].
      * left. intros [?|?]%elem_of_app; tauto.
      * right. exists (t1 ++ pre). rewrite app_assoc. split; [done|].
        split; [intros [?|?]%elem_of_app; tauto|].
        by rewrite app_assoc.
    + destruct Hf as (pre & -> & Hn).
      exists (t1 ++ pre). rewrite app_assoc. split; [done|].
      intros [?|?]%elem_of_app; tauto.
Qed.

End Traces.

Ltac emits_steps :=
  repeat
    match goal with
    | |- emits _ _ (ret _) => apply emits_ret
    | |- emits _ _ (bind _ _) => apply emits_bind; [|intros ?]
    | |- emits _ _ (call _ _) => apply emits_call
    | |- emits _ _ (print_stderr _) => apply emits_print
    | |- emits _ _ (_parse_log_file _ _) => apply emits_parse_log
    | |- emits _ _ (_parse_submit_file _ _) => apply emits_parse_submit
    | |- emits _ _ (add_existing _ _ _ _) => apply emits_add_existing
    | |- emits _ _ (init_run _ _ _ _ _ _ _) => apply emits_call
    | |- emits _ _ (if ?b then _ else _) => destruct b eqn:?
    end.

(** ** Concrete SDKs for the examples *)

(** An SDK that answers like wandb with its service up: [wandb.init] gives
    a run, [add_file] raises for a path that is not on disk, every other
    call returns. *)
Definition wandb_backend (fs : filesystem) : backend_t :=
  fun _ ev =>
    match ev with
    | InitNew _ _ _ _ _ => Returns "run-1"
    | InitResumeMust run_id => Returns run_id
    | AddFile _ p =>
        if path_exists fs p then Returns ""
        else Raises "ValueError: Path is not a file"
    | _ => Returns ""
    end.

(** The same, with the service lost once the run is open: logging metrics
    or an artifact raises. *)
Definition offline_backend (fs : filesystem) : backend_t :=
  fun h ev =>
    match ev with
    | RunLog _ | LogArtifact _ _ _ => Raises "ConnectionError"
    | _ => wandb_backend fs h ev
    end.

(** The same as [wandb_backend], with no run to resume. *)
Definition no_run_backend (fs : filesystem) : backend_t :=
  fun h ev =>
    match ev with
    | InitResumeMust _ => Raises "UsageError: resume='must' but run does not exist"
    | _ => wandb_backend fs h ev
    end.

Definition a_logger : logger := {| api_key := None; entity := Some "chtc-lab" |}.

(** A submit descriptor and the disk it is on, with one output file. *)
Definition example_submit : string :=
  "# training job" +:+ nl +:+
  "Universe   = vanilla" +:+ nl +:+
  "executable = /bin/run.sh" +:+ nl +:+
  "arguments  = --epochs 3" +:+ nl +:+
  nl +:+
  "Request_CPUs = 4" +:+ nl +:+
  "queue" +:+ nl.

Definition job_fs : filesystem := {|
  path_exists p :=
    bool_decide (p ∈ ["submit.txt"; "job.log"; "plain.log"; "out.csv"]);
  open_read p :=
    if bool_decide (p = "submit.txt") then Readable example_submit
    else if bool_decide (p = "job.log") then Readable example_log
    else if bool_decide (p = "plain.log") then Readable "no usage lines here"
    else if bool_decide (p = "out.csv") then Readable "a,b"
    else Unreadable "FileNotFoundError"
|}.

Example example_submit_parse :
  fst (parse_submit_try job_fs "submit.txt")
  = {[ "universe" := PStr "vanilla"; "executable" := PStr "/bin/run.sh";
       "request_cpus" := PStr "4" ]}.
Proof. vm_compute. reflexivity. Qed.

(** ** Events of a completion and of a submission *)

Lemma completion_emits fs backend run_id log_file output_files metrics :
  emits backend (completion_event fs)
    (log_job_completion fs backend run_id log_file output_files metrics).
Proof.
  unfold log_job_completion. emits_steps; simpl; try done.
  match goal with H : _ && _ = true |- _ => by apply andb_true_iff in H as [_ ?] end.
Qed.

(** *** C1 *)

(** C1, as it holds.  For [log_job_submission] and [log_job_completion],
    from any history and with any SDK: when the call returns, run.finish()
    was its last event and happened exactly once; when the call raises,
    run.finish() did not happen at all, unless it is run.finish() itself
    that raised.  Nothing runs finish after an exception. *)
Theorem finish_unless_exception fs backend self :
  (forall project submit_file job_id config,
      finishes_last backend
        (log_job_submission fs backend self project submit_file job_id config))
  /\
  (forall run_id log_file output_files metrics,
      finishes_last backend
        (log_job_completion fs backend run_id log_file output_files metrics)).
Proof.
  split; intros.
  - unfold log_job_submission.
    repeat (apply finishes_last_bind; [emits_steps; done|intros ?]).
    apply finishes_last_finish.
  - unfold log_job_completion.
    repeat (apply finishes_last_bind; [emits_steps; done|intros ?]).
    apply finishes_last_finish.
Qed.

(** C1, as stated, fails.  The run is resumed (or created), then the SDK
    raises while metrics (or the artifact) are logged: the call raises and
    run.finish() is not among its events. *)
Lemma finish_skipped_on_exception :
  (offline_backend job_fs [] (InitResumeMust "run-1") = Returns "run-1" /\
   log_job_completion job_fs (offline_backend job_fs) "run-1" None None
     (Some {[ "accuracy" := PInt 97 ]}) []
   = ([InitResumeMust "run-1"; RunLog {[ "accuracy" := PInt 97 ]}],
      inl "ConnectionError")) /\
  (exists t,
      log_job_submission job_fs (offline_backend job_fs) a_logger
        "proj" "submit.txt" "123.0" None []
      = (t, inl "ConnectionError") /\
      (exists cfg, InitNew "proj" (Some "chtc-job-123.0") cfg ["chtc"]
                     (Some "chtc-lab") ∈ t) /\
      RunFinish ∉ t).
Proof.
  split.
  - split; [reflexivity|]. vm_compute. reflexivity.
  - eexists. split; [vm_compute; reflexivity|]. split.
    + eexists. apply elem_of_cons; by left.
    + intros H. repeat (apply elem_of_cons in H as [H|H]; [discriminate H|]).
      by apply elem_of_nil in H.
Qed.

(** *** C2 *)

Definition is_init_new (ev : event) : Prop :=
  match ev with
  | InitNew _ _ _ _ _ => True
  | _ => False
  end.

(** C2.  When the SDK raises on wandb.init(id=run_id, resume="must"),
    [log_job_completion] raises that same exception and the resume call is
    its only event: no run.log, no artifact, no run.finish.  And whatever
    the SDK does, from any history, [log_job_completion] never calls the
    wandb.init that creates a run. *)
Theorem completion_fails_fast fs backend run_id log_file output_files metrics
  h e :
  backend h (InitResumeMust run_id) = Raises e ->
  log_job_completion fs backend run_id log_file output_files metrics h
  = ([InitResumeMust run_id], inl e) /\
  (forall backend' h',
      Forall (fun ev => ~ is_init_new ev)
        (fst (log_job_completion fs backend' run_id log_file output_files
                metrics h'))).
Proof.
  intros Hraise. split.
  - unfold log_job_completion. apply bind_inl. unfold call. by rewrite Hraise.
  - intros backend' h'.
    destruct (completion_emits fs backend' run_id log_file output_files
                metrics h') as [Hall _].
    eapply Forall_impl; [exact Hall|]. intros ev Hc Hi. by destruct ev.
Qed.

Lemma completion_fails_fast_witness :
  no_run_backend job_fs [] (InitResumeMust "gone") = Raises "UsageError: resume='must' but run does not exist" /\
  log_job_completion job_fs (no_run_backend job_fs) "gone" (Some "job.log")
    (Some ["out.csv"]) (Some {[ "accuracy" := PInt 97 ]}) []
  = ([InitResumeMust "gone"], inl "UsageError: resume='must' but run does not exist").
Proof.
  split; [reflexivity|].
  apply (completion_fails_fast job_fs (no_run_backend job_fs) "gone"
           (Some "job.log") (Some ["out.csv"])
           (Some {[ "accuracy" := PInt 97 ]}) []). reflexivity.
Defined.

(** *** C4 *)

Lemma run_name_cases name job_id :
  run_name name job_id =
    match truthy_str job_id, truthy_str name with
    | true, true => name
    | true, false => Some ("chtc-job-" +:+ default "" job_id)
    | false, _ => None
    end.
Proof. unfold run_name. by destruct (truthy_str job_id), (truthy_str name). Qed.

(** C4, where the code departs from it.  [init_run] called with an explicit
    name and no job id passes name=None to wandb.init: the conditional
    expression covers the whole [name or ...], so without a job id the name
    is dropped, whatever it is.  With a job id the claim holds: the name if
    one is given, else "chtc-job-" followed by the job id. *)
Theorem explicit_name_dropped_without_job_id :
  init_run (wandb_backend job_fs) a_logger "proj" (Some "my-run") None None
    None []
  = ([InitNew "proj" None {[ "cluster" := PStr "chtc" ]} ["chtc"]
        (Some "chtc-lab")], inr "run-1") /\
  (forall name, run_name name None = None) /\
  (forall name, run_name name (Some "") = None) /\
  (forall n job_id, job_id <> "" -> n <> "" ->
                    run_name (Some n) (Some job_id) = Some n) /\
  (forall job_id, job_id <> "" ->
                  run_name None (Some job_id) = Some ("chtc-job-" +:+ job_id)).
Proof.
  split; [vm_compute; reflexivity|].
  split; [done|]. split; [done|]. split.
  - intros n job_id Hj Hn. rewrite run_name_cases.
    by destruct n, job_id.
  - intros job_id Hj. rewrite run_name_cases. by destruct job_id.
Qed.

(** *** C10 *)

Definition cluster_is_chtc (ev : event) : Prop :=
  match ev with
  | InitNew _ _ config _ _ => config !! "cluster" = Some (PStr "chtc")
  | _ => True
  end.

Lemma run_config_cluster config job_id :
  run_config config job_id !! "cluster" = Some (PStr "chtc").
Proof. unfold run_config. apply lookup_insert_eq. Qed.

(** C10.  [init_run] makes one call, wandb.init, and the config it passes
    has cluster = "chtc", whatever config the caller gave; every wandb.init
    of [log_job_submission] has it too, whatever the descriptor and the
    extra config hold. *)
Theorem cluster_always_chtc fs backend self :
  (forall project name config tags job_id h,
      exists run_name config' tags' r,
        init_run backend self project name config tags job_id h
        = ([InitNew project run_name config' tags' (entity self)], r) /\
        config' !! "cluster" = Some (PStr "chtc")) /\
  (forall project submit_file job_id config h,
      Forall cluster_is_chtc
        (fst (log_job_submission fs backend self project submit_file job_id
                config h))).
Proof.
  split.
  - intros. unfold init_run, call.
    match goal with |- context [backend ?a ?b] => destruct (backend a b) end;
      do 4 eexists; (split; [reflexivity|]); apply run_config_cluster.
  - intros.
    assert (emits backend cluster_is_chtc
              (log_job_submission fs backend self project submit_file job_id
                 config)) as Hem.
    { unfold log_job_submission. emits_steps; try done.
      simpl. apply run_config_cluster. }
    apply Hem.
Qed.

(** *** C3 *)

(** C3, where the code departs from it.  [log_job_submission] calls
    artifact.add_file on the descriptor path without asking whether the
    path exists.  With a descriptor that is not on disk, parsing warns and
    goes on, the run is created, and add_file raises: the call raises, no
    run id is returned and the run is not finished.  In general a
    submission that returns has called add_file on the descriptor path. *)
Theorem submission_fails_on_missing_descriptor :
  path_exists job_fs "missing.sub" = false /\
  log_job_submission job_fs (wandb_backend job_fs) a_logger
    "proj" "missing.sub" "123.0" None []
  = ([Stderr "Warning: Could not parse submit file: FileNotFoundError";
      InitNew "proj" (Some "chtc-job-123.0")
        {[ "htcondor_job_id" := PStr "123.0"; "cluster" := PStr "chtc" ]}
        ["chtc"] (Some "chtc-lab");
      NewArtifact "submit-123.0" "submit_file";
      AddFile "submit-123.0" "missing.sub"],
     inl "ValueError: Path is not a file") /\
  (forall fs backend self project submit_file job_id config h t run_id,
      log_job_submission fs backend self project submit_file job_id config h
      = (t, inr run_id) ->
      AddFile ("submit-" +:+ job_id) submit_file ∈ t).
Proof.
  split; [reflexivity|]. split; [vm_compute; reflexivity|].
  intros fs backend self project submit_file job_id config h t run_id.
  unfold log_job_submission, _parse_submit_file, init_run.
  destruct (parse_submit_try fs submit_file) as [sc [e|]];
    unfold bind, call, print_stderr, ret;
    repeat (match goal with
            | |- context [backend ?a ?b] => destruct (backend a b)
            end; simpl; try discriminate);
    intros [= <- <-];
    repeat rewrite elem_of_cons; tauto.
Qed.

(** *** C8 *)

(** The configs of the runs a trace creates. *)
Definition init_configs (t : list event) : list (gmap string pyval) :=
  omap (fun ev => match ev with
                  | InitNew _ _ config _ _ => Some config
                  | _ => None
                  end) t.

(** The config of the design document: the descriptor's pairs, the extra
    config over them, and the job id under [scheduler_job_id]. *)
Definition config_as_stated (submit_config extra : gmap string pyval)
  (job_id : string) (config : gmap string pyval) : Prop :=
  (forall k v, extra !! k = Some v -> config !! k = Some v) /\
  (forall k, extra !! k = None -> k <> "scheduler_job_id" ->
             config !! k = submit_config !! k) /\
  config !! "scheduler_job_id" = Some (PStr job_id).

(** The config the code builds. *)
Definition config_as_built (submit_config extra : gmap string pyval)
  (job_id : string) (config : gmap string pyval) : Prop :=
  forall k,
    config !! k =
      if decide (k = "cluster") then Some (PStr "chtc")
      else if decide (k = "htcondor_job_id" /\ job_id <> "")
      then Some (PStr job_id)
      else match extra !! k with
           | Some v => Some v
           | None => submit_config !! k
           end.

Lemma run_config_built submit_config extra job_id :
  config_as_built submit_config extra job_id
    (run_config (Some (extra ∪ submit_config)) (Some job_id)).
Proof.
  intros k. unfold run_config, or_empty_dict. cbn [default from_option].
  destruct (decide (k = "cluster")) as [->|Hc].
  { apply lookup_insert_eq. }
  rewrite lookup_insert_ne by done.
  assert ((extra ∪ submit_config) !! k
          = match extra !! k with
            | Some v => Some v
            | None => submit_config !! k
            end) as Hu.
  { rewrite lookup_union. destruct (extra !! k), (submit_config !! k); done. }
  destruct job_id as [|c job_id]; cbn [truthy_str].
  - rewrite decide_False by tauto. done.
  - destruct (decide (k = "htcondor_job_id")) as [->|Hk].
    + rewrite decide_True by done. apply lookup_insert_eq.
    + rewrite decide_False by tauto. rewrite lookup_insert_ne by done. done.
Qed.

(** C8, as it holds.  [log_job_submission] creates exactly one run.  Its
    config has cluster = "chtc"; when the job id is not empty it has
    htcondor_job_id = the job id; on every other key it has the extra
    config's value when the extra config has the key, and otherwise what
    [_parse_submit_file] returned for it. *)
Theorem submission_config fs backend self project submit_file job_id config h :
  exists submit_config cfg,
    snd (_parse_submit_file fs submit_file h) = inr submit_config /\
    init_configs
      (fst (log_job_submission fs backend self project submit_file job_id
              config h)) = [cfg] /\
    config_as_built submit_config (or_empty_dict config) job_id cfg.
Proof.
  exists (fst (parse_submit_try fs submit_file)).
  exists (run_config
            (Some (or_empty_dict config ∪ fst (parse_submit_try fs submit_file)))
            (Some job_id)).
  split; [|split].
  - unfold _parse_submit_file.
    by destruct (parse_submit_try fs submit_file) as [sc [e|]].
  - unfold log_job_submission, _parse_submit_file, init_run.
    destruct (parse_submit_try fs submit_file) as [sc [e|]];
      unfold bind, call, print_stderr, ret;
      repeat (match goal with
              | |- context [backend ?a ?b] => destruct (backend a b)
              end; simpl);
      reflexivity.
  - apply run_config_built.
Qed.

Lemma submission_init_configs fs backend self project submit_file job_id
  config h :
  init_configs
    (fst (log_job_submission fs backend self project submit_file job_id
            config h))
  = [run_config
       (Some (or_empty_dict config ∪ fst (parse_submit_try fs submit_file)))
       (Some job_id)].
Proof.
  unfold log_job_submission, _parse_submit_file, init_run.
  destruct (parse_submit_try fs submit_file) as [sc [e|]];
    unfold bind, call, print_stderr, ret;
    repeat (match goal with
            | |- context [backend ?a ?b] => destruct (backend a b)
            end; simpl);
    reflexivity.
Qed.

(** C8, as stated, fails.  For job "123.0" the config of the run has no
    [scheduler_job_id]: the job id is under [htcondor_job_id].  For an
    empty job id it is under neither.  And an extra config that sets
    [cluster] does not win: the run has cluster = "chtc". *)
Lemma submission_config_not_as_stated :
  (exists cfg,
      init_configs
        (fst (log_job_submission job_fs (wandb_backend job_fs) a_logger
                "proj" "submit.txt" "123.0" None [])) = [cfg] /\
      cfg !! "scheduler_job_id" = None /\
      cfg !! "htcondor_job_id" = Some (PStr "123.0") /\
      ~ config_as_stated (fst (parse_submit_try job_fs "submit.txt")) ∅
          "123.0" cfg) /\
  (exists cfg,
      init_configs
        (fst (log_job_submission job_fs (wandb_backend job_fs) a_logger
                "proj" "submit.txt" "" None [])) = [cfg] /\
      cfg !! "scheduler_job_id" = None /\
      cfg !! "htcondor_job_id" = None) /\
  (exists cfg,
      init_configs
        (fst (log_job_submission job_fs (wandb_backend job_fs) a_logger
                "proj" "submit.txt" "123.0"
                (Some {[ "cluster" := PStr "local" ]}) [])) = [cfg] /\
      cfg !! "cluster" = Some (PStr "chtc")).
Proof.
  split; [|split].
  - exists (run_config
              (Some (or_empty_dict None
                       ∪ fst (parse_submit_try job_fs "submit.txt")))
              (Some "123.0")).
    assert (run_config
              (Some (or_empty_dict None
                       ∪ fst (parse_submit_try job_fs "submit.txt")))
              (Some "123.0") !! "scheduler_job_id" = None) as Hnone
      by (vm_compute; reflexivity).
    split; [apply submission_init_configs|].
    split; [exact Hnone|]. split; [vm_compute; reflexivity|].
    intros (_ & _ & H). rewrite Hnone in H. discriminate H.
  - exists (run_config
              (Some (or_empty_dict None
                       ∪ fst (parse_submit_try job_fs "submit.txt")))
              (Some "")).
    split; [apply submission_init_configs|].
    split; vm_compute; reflexivity.
  - exists (run_config
              (Some (or_empty_dict (Some {[ "cluster" := PStr "local" ]})
                       ∪ fst (parse_submit_try job_fs "submit.txt")))
              (Some "123.0")).
    split; [apply submission_init_configs|]. apply run_config_cluster.
Qed.

(** *** C9 *)

Lemma add_existing_returns fs backend artifact output_files h :
  returns_on backend (completion_event fs) ->
  add_existing fs backend artifact output_files h
  = (AddFile artifact <$> List.filter (path_exists fs) output_files,
     inr (List.filter (path_exists fs) output_files)).
Proof.
  intros Hr. revert h. induction output_files as [|p l IH]; intros h.
  - reflexivity.
  - cbn [add_existing List.filter].
    destruct (path_exists fs p) eqn:E; [|apply IH].
    destruct (Hr h (AddFile artifact p) E) as [v Hv].
    unfold bind, call, ret. rewrite Hv, IH. rewrite fmap_cons.
    by rewrite app_nil_r.
Qed.

Lemma bind_prefix {A B} backend P (m : M A) (k : A -> M B) suffix r h :
  emits backend P m ->
  returns_on backend P ->
  (forall a h', exists pre, k a h' = (pre ++ suffix, r)) ->
  exists pre, bind m k h = (pre ++ suffix, r).
Proof.
  intros Hm Hr Hk. destruct (Hm h) as [_ Hret].
  destruct (Hret Hr) as [a Ha]. destruct (m h) as [t1 r1] eqn:Em.
  simpl in Ha. subst r1. destruct (Hk a (h ++ t1)) as [pre Hpre].
  exists (t1 ++ pre). rewrite <- app_assoc. by apply bind_inr with (a := a).
Qed.

(** C9.  Let the SDK return from every call except, possibly, add_file on
    a path that does not exist.  Then [log_job_completion] with a non-empty
    list of output files returns, and its last events are: the results
    artifact is made, add_file is called on the output files that exist, in
    order, and on no other, the artifact is logged with exactly those
    files, and the run is finished. *)
Theorem results_bundle_existing_only fs backend run_id log_file output_files
  metrics h :
  output_files <> [] ->
  returns_on backend (completion_event fs) ->
  let artifact := "outputs-" +:+ run_id in
  let existing := List.filter (path_exists fs) output_files in
  exists pre,
    log_job_completion fs backend run_id log_file (Some output_files) metrics h
    = (pre ++ NewArtifact artifact "results"
           :: (AddFile artifact <$> existing)
           ++ [LogArtifact artifact "results" existing; RunFinish],
       inr tt).
Proof.
  intros Hne Hr artifact existing. unfold log_job_completion.
  eapply (bind_prefix backend (completion_event fs)); [emits_steps; done|exact Hr|]. intros _ h1.
  eapply (bind_prefix backend (completion_event fs)); [|exact Hr|].
  { emits_steps; simpl; try done.
    match goal with
    | H : _ && _ = true |- _ => by apply andb_true_iff in H as [_ ?]
    end. }
  intros _ h2.
  eapply (bind_prefix backend (completion_event fs)); [emits_steps; done|exact Hr|]. intros _ h3.
  exists []. destruct output_files as [|p l]; [done|].
  cbn [truthy_list or_empty_list default from_option].
  fold artifact. unfold bind, call, ret.
  destruct (Hr h3 (NewArtifact artifact "results") I) as [v1 ->].
  rewrite (add_existing_returns fs backend artifact (p :: l) _ Hr).
  fold existing.
  match goal with
  | |- context [backend ?a (LogArtifact ?x ?y ?z)] =>
      destruct (Hr a (LogArtifact x y z) I) as [v2 ->]
  end.
  match goal with
  | |- context [backend ?a RunFinish] =>
      destruct (Hr a RunFinish I) as [v3 ->]
  end.
  f_equal. rewrite !app_nil_r. simpl. by rewrite <- app_assoc.
Qed.

Lemma wandb_backend_returns fs :
  returns_on (wandb_backend fs) (completion_event fs).
Proof.
  intros h ev Hev. destruct ev; simpl in *; eauto.
  rewrite Hev. eauto.
Defined.

Lemma results_bundle_existing_only_witness :
  ["lost.csv"; "out.csv"] <> [] /\
  returns_on (wandb_backend job_fs) (completion_event job_fs) /\
  exists pre,
    log_job_completion job_fs (wandb_backend job_fs) "run-1" None
      (Some ["lost.csv"; "out.csv"]) None []
    = (pre ++ NewArtifact "outputs-run-1" "results"
           :: (AddFile "outputs-run-1" <$> ["out.csv"])
           ++ [LogArtifact "outputs-run-1" "results" ["out.csv"]; RunFinish],
       inr tt).
Proof.
  split; [discriminate|]. split; [apply wandb_backend_returns|].
  apply (results_bundle_existing_only job_fs (wandb_backend job_fs) "run-1"
           None ["lost.csv"; "out.csv"] None []).
  - discriminate.
  - apply wandb_backend_returns.
Defined.

(** *** C5 *)

(** C5.  For a descriptor that can be read, [_parse_submit_file] returns,
    warns of nothing, and its dictionary has [key] bound to [v] exactly
    when [v] is the string [value] of the last line that gives a pair for
    [key]: a line that is not blank, not a comment, holds an equals sign,
    and whose text before the first equals sign, trimmed and in lower case,
    is [key], a key of the allow-list; [value] is the text after that
    equals sign, trimmed.  No other line contributes and no other key is
    kept. *)
Theorem submit_extraction_pairs fs submit_file text h :
  open_read fs submit_file = Readable text ->
  exists config,
    _parse_submit_file fs submit_file h = ([], inr config) /\
    forall key v,
      config !! key = Some v <->
      exists value,
        v = PStr value /\ last_yield (Str.file_lines text) key value.
Proof.
  intros Hopen. exists (foldl parse_submit_line ∅ (Str.file_lines text)).
  split.
  - unfold _parse_submit_file, parse_submit_try. by rewrite Hopen.
  - intros key v. apply parse_submit_lines_lookup.
Qed.

Lemma submit_extraction_pairs_witness :
  open_read job_fs "submit.txt" = Readable example_submit /\
  exists config,
    _parse_submit_file job_fs "submit.txt" [] = ([], inr config) /\
    forall key v,
      config !! key = Some v <->
      exists value,
        v = PStr value /\ last_yield (Str.file_lines example_submit) key value.
Proof.
  split; [reflexivity|].
  apply (submit_extraction_pairs job_fs "submit.txt" example_submit []).
  reflexivity.
Defined.

Example yields_ex : yields "executable = /bin/run.sh" "executable" "/bin/run.sh".
Proof.
  split; [done|]. split; [done|].
  exists "executable ", " /bin/run.sh". split; [done|]. split; [done|].
  split; [done|]. split; [done|]. unfold allow_list.
  repeat rewrite elem_of_cons. tauto.
Qed.

(** *** C6 *)

(** A log in which the runtime and the memory match as in the design
    document's example, and the disk usage is a number of 4301 digits. *)
Fixpoint sevens (n : nat) : string :=
  match n with
  | O => ""
  | S n => String "7" (sevens n)
  end.

Definition long_log : string :=
  "Job terminated ... run time 01:02:03" +:+ nl +:+
  "Memory (MB)        : 2048" +:+ nl +:+
  "Disk (KB)            : " +:+ sevens 4301 +:+ nl.

Definition long_log_fs : filesystem := {|
  path_exists p := bool_decide (p = "long.log");
  open_read p :=
    if bool_decide (p = "long.log") then Readable long_log
    else Unreadable "FileNotFoundError"
|}.

(** C6, as it holds.  For a log that can be read and in which no captured
    number has more than 4300 digits, [_parse_log_file] returns the
    dictionary of metrics, or None when that dictionary is empty, and warns
    of nothing.  Each of the three entries depends on its own search only:
    [runtime_seconds] is there exactly when the runtime pattern matches,
    and then the capture is [H:M:S] for three numbers and the entry is
    [H*3600 + M*60 + S]; [memory_mb] and [disk_kb] are there exactly when
    their pattern matches, with the captured number.  There is no other
    entry.  When a captured number has more than 4300 digits, int() raises
    on the first such number: the call prints the warning with that
    exception and returns None, whatever matched.  The log of the design
    document gives memory_mb 2048, disk_kb 512000 and runtime_seconds
    3723. *)
Theorem log_extraction_fields fs log_file content h :
  open_read fs log_file = Readable content ->
  match List.find Str.over_long (log_numbers content) with
  | None =>
      exists metrics : gmap string pyval,
        _parse_log_file fs log_file h
        = ([], inr (if bool_decide (metrics <> ∅) then Some metrics
                    else None)) /\
        recorded (Re.search Re.runtime_re content) hms_value
          (metrics !! "runtime_seconds") /\
        recorded (Re.search Re.memory_re content) int_value
          (metrics !! "memory_mb") /\
        recorded (Re.search Re.disk_re content) int_value
          (metrics !! "disk_kb") /\
        (forall k, k ∉ ["runtime_seconds"; "memory_mb"; "disk_kb"] ->
                   metrics !! k = None)
  | Some number =>
      _parse_log_file fs log_file h
      = ([Stderr ("Warning: Could not parse log file: "
                  +:+ Str.int_error number)], inr None)
  end /\
  _parse_log_file example_fs "job.log" []
  = ([], inr (Some {[ "memory_mb" := PInt 2048; "disk_kb" := PInt 512000;
                      "runtime_seconds" := PInt 3723 ]})).
Proof.
  intros Hopen. split.
  - pose proof (parse_log_content_spec content) as Hspec.
    unfold _parse_log_file, parse_log_try. rewrite Hopen.
    destruct (List.find Str.over_long (log_numbers content)) as [number|].
    + by rewrite Hspec.
    + destruct Hspec as (metrics & -> & Hfields).
      exists metrics. split; [done|]. exact Hfields.
  - vm_compute. reflexivity.
Qed.

Lemma log_extraction_fields_witness :
  open_read job_fs "job.log" = Readable example_log /\
  match List.find Str.over_long (log_numbers example_log) with
  | None =>
      exists metrics : gmap string pyval,
        _parse_log_file job_fs "job.log" []
        = ([], inr (if bool_decide (metrics <> ∅) then Some metrics
                    else None)) /\
        recorded (Re.search Re.runtime_re example_log) hms_value
          (metrics !! "runtime_seconds") /\
        recorded (Re.search Re.memory_re example_log) int_value
          (metrics !! "memory_mb") /\
        recorded (Re.search Re.disk_re example_log) int_value
          (metrics !! "disk_kb") /\
        (forall k, k ∉ ["runtime_seconds"; "memory_mb"; "disk_kb"] ->
                   metrics !! k = None)
  | Some number =>
      _parse_log_file job_fs "job.log" []
      = ([Stderr ("Warning: Could not parse log file: "
                  +:+ Str.int_error number)], inr None)
  end.
Proof.
  split; [reflexivity|].
  apply (log_extraction_fields job_fs "job.log" example_log []).
  reflexivity.
Defined.

(** C6, as stated, fails.  In [long_log] the runtime pattern matches
    01:02:03 and the memory pattern matches 2048, and the disk usage has
    4301 digits: int() raises on it, and [_parse_log_file] prints the
    warning and returns None, with neither runtime_seconds nor memory_mb. *)
Lemma over_long_capture_drops_fields :
  Re.search Re.runtime_re long_log = Some (Some "01:02:03") /\
  Re.search Re.memory_re long_log = Some (Some "2048") /\
  Re.search Re.disk_re long_log = Some (Some (sevens 4301)) /\
  _parse_log_file long_log_fs "long.log" []
  = ([Stderr "Warning: Could not parse log file: Exceeds the limit (4300 digits) for integer string conversion: value has 4301 digits; use sys.set_int_max_str_digits() to increase the limit"],
     inr None).
Proof.
  split; [vm_compute; reflexivity|]. split; [vm_compute; reflexivity|].
  split; vm_compute; reflexivity.
Qed.

(** *** C7 *)

(** The pattern behind each key of the metrics. *)
Definition field_pattern (key : string) : option Re.regex :=
  if decide (key = "runtime_seconds") then Some Re.runtime_re
  else if decide (key = "memory_mb") then Some Re.memory_re
  else if decide (key = "disk_kb") then Some Re.disk_re
  else None.

Lemma recorded_is_Some found value entry :
  recorded found value entry -> (is_Some entry <-> is_Some found).
Proof.
  destruct found as [t|]; simpl.
  - intros (n & _ & ->). split; eauto.
  - intros ->. split; intros [? [=]].
Qed.

Lemma parse_log_content_keys content metrics :
  fields_recorded content metrics ->
  forall key,
    is_Some (metrics !! key) <->
    exists re, field_pattern key = Some re /\ is_Some (Re.search re content).
Proof.
  intros (Hrt & Hmem & Hdisk & Hother) key. unfold field_pattern.
  destruct (decide (key = "runtime_seconds")) as [->|H1].
  { rewrite (recorded_is_Some _ _ _ Hrt). split; [eauto|].
    by intros (re & [= <-] & H). }
  destruct (decide (key = "memory_mb")) as [->|H2].
  { rewrite (recorded_is_Some _ _ _ Hmem). split; [eauto|].
    by intros (re & [= <-] & H). }
  destruct (decide (key = "disk_kb")) as [->|H3].
  { rewrite (recorded_is_Some _ _ _ Hdisk). split; [eauto|].
    by intros (re & [= <-] & H). }
  rewrite Hother.
  - split; [intros [? [=]]|intros (re & [=] & _)].
  - repeat rewrite not_elem_of_cons. split_and!; try done. apply not_elem_of_nil.
Qed.

Lemma fields_recorded_empty content metrics :
  fields_recorded content metrics ->
  (forall key re, field_pattern key = Some re -> Re.search re content = None) ->
  metrics = ∅.
Proof.
  intros Hfields Hnone. apply map_eq. intros key. rewrite lookup_empty.
  destruct (metrics !! key) as [v|] eqn:Hv; [|done].
  destruct (proj1 (parse_log_content_keys _ _ Hfields key)) as (re & Hre & Hs);
    [eauto|].
  rewrite (Hnone key re Hre) in Hs. by destruct Hs.
Qed.

(** C7, as it holds.  Neither extraction raises, whatever the file.
    [_parse_submit_file] returns a dictionary: empty when the file cannot
    be opened, and otherwise what the lines that were read give.
    [_parse_log_file] returns None, and no dictionary at all, in three
    cases: the log cannot be read, no pattern matches (and then nothing is
    printed), or a captured number has more than 4300 digits; a dictionary
    it returns is never empty and has an entry exactly for the fields
    whose pattern matched, so a field that did not match is left out and
    never set to zero. *)
Theorem extraction_never_raises fs path h :
  (exists t config,
      _parse_submit_file fs path h = (t, inr config) /\
      match open_read fs path with
      | Unreadable _ => config = ∅
      | Readable text | Truncated text _ =>
          config = foldl parse_submit_line ∅ (Str.file_lines text)
      end) /\
  (exists t r,
      _parse_log_file fs path h = (t, inr r) /\
      match r with
      | None =>
          forall content,
            open_read fs path = Readable content ->
            (forall key re, field_pattern key = Some re ->
                            Re.search re content = None) \/
            (exists number,
                number ∈ log_numbers content /\
                Str.over_long number = true)
      | Some metrics =>
          metrics <> ∅ /\
          exists content,
            open_read fs path = Readable content /\
            forall key,
              is_Some (metrics !! key) <->
              exists re, field_pattern key = Some re /\
                         is_Some (Re.search re content)
      end /\
      (forall content,
          open_read fs path = Readable content ->
          (forall key re, field_pattern key = Some re ->
                          Re.search re content = None) ->
          t = [] /\ r = None)).
Proof.
  split.
  - unfold _parse_submit_file, parse_submit_try.
    destruct (open_read fs path); do 2 eexists; (split; [reflexivity|done]).
  - unfold _parse_log_file, parse_log_try.
    destruct (open_read fs path) as [e|content|text e] eqn:Hopen.
    + do 2 eexists. split; [reflexivity|]. split; intros ? [=].
    + pose proof (parse_log_content_spec content) as Hspec.
      destruct (List.find Str.over_long (log_numbers content)) as [number|]
        eqn:Hfind.
      * rewrite Hspec. do 2 eexists. split; [reflexivity|].
        apply List.find_some in Hfind as [Hin Hlong]. split.
        -- intros ? [= <-]. right. exists number.
           split; [by apply list_elem_of_In|done].
        -- intros ? [= <-] Hnone. exfalso.
           apply list_elem_of_In in Hin. unfold log_numbers in Hin.
           rewrite (Hnone "runtime_seconds" Re.runtime_re eq_refl) in Hin.
           rewrite (Hnone "memory_mb" Re.memory_re eq_refl) in Hin.
           rewrite (Hnone "disk_kb" Re.disk_re eq_refl) in Hin.
           by apply elem_of_nil in Hin.
      * destruct Hspec as (metrics & -> & Hfields).
        do 2 eexists. split; [reflexivity|].
        case_bool_decide as Hne.
        -- split.
           ++ split; [done|]. exists content. split; [done|].
              by apply parse_log_content_keys.
           ++ intros ? [= <-] Hnone. destruct Hne.
              by eapply fields_recorded_empty.
        -- split; [|done].
           intros ? [= <-]. left. intros key re Hre.
           destruct (Re.search re content) eqn:Hs; [|done].
           assert (is_Some (metrics !! key)) as [v Hv].
           { apply (parse_log_content_keys _ _ Hfields). eauto. }
           assert (metrics = ∅) as ->
             by (destruct (decide (metrics = ∅)); tauto).
           by rewrite lookup_empty in Hv.
    + do 2 eexists. split; [reflexivity|]. split; intros ? [=].
Qed.

(** C7, as stated, fails.  For a log in which nothing matches,
    [_parse_log_file] returns None, not an empty dictionary. *)
Lemma log_extraction_none_not_empty :
  (forall key re, field_pattern key = Some re ->
                  Re.search re "no usage lines here" = None) /\
  _parse_log_file job_fs "plain.log" [] = ([], inr None) /\
  _parse_log_file job_fs "plain.log" [] <> ([], inr (Some ∅)).
Proof.
  split; [|split].
  - intros key re. unfold field_pattern.
    repeat case_decide; intros [= <-]; reflexivity.
  - reflexivity.
  - discriminate.
Qed.

(** * Further properties *)

(** ** The matcher finds what the patterns describe *)

(** [text] holds a word of the pattern [r] somewhere. *)
Definition occurs (r : Re.regex) (text : string) : Prop :=
  exists before w after, text = before +:+ w +:+ after /\ lang r w.

(** Whether the continuation succeeds does not depend on the capture. *)
Definition cap_blind (k : string -> Re.result -> option Re.result) : Prop :=
  forall s c1 c2, is_Some (k s c1) -> is_Some (k s c2).

Lemma star_lazy_here p k s :
  is_Some (k s) -> is_Some (Re.star_lazy p k s).
Proof. intros [r Hr]. destruct s; simpl; rewrite Hr; eauto. Qed.

Lemma star_lazy_complete p k w s :
  all_chars p w = true -> is_Some (k s) ->
  is_Some (Re.star_lazy p k (w +:+ s)).
Proof.
  intros Hw Hk. induction w as [|c w IH]; simpl.
  - by apply star_lazy_here.
  - simpl in Hw. apply andb_true_iff in Hw as [Hc Hw].
    destruct (k (String c (w +:+ s))); [eauto|]. rewrite Hc. by apply IH.
Qed.

Lemma star_greedy_here p k s :
  is_Some (k s) -> is_Some (Re.star_greedy p k s).
Proof.
  intros Hk. destruct s as [|c s]; simpl; [done|].
  destruct (p c); [|done]. by destruct (Re.star_greedy p k s).
Qed.

Lemma star_greedy_complete p k w s :
  all_chars p w = true -> is_Some (k s) ->
  is_Some (Re.star_greedy p k (w +:+ s)).
Proof.
  intros Hw Hk. induction w as [|c w IH]; simpl.
  - by apply star_greedy_here.
  - simpl in Hw. apply andb_true_iff in Hw as [Hc Hw]. rewrite Hc.
    destruct (IH Hw) as [r ->]. eauto.
Qed.

Lemma lit_complete l s : Re.lit l (l +:+ s) = Some s.
Proof.
  induction l as [|a l IH]; simpl; [done|]. by rewrite Ascii.eqb_refl.
Qed.

Lemma rmatch_complete r :
  forall w s cap k,
    cap_blind k -> lang r w -> (exists c, is_Some (k s c)) ->
    is_Some (Re.rmatch r (w +:+ s) cap k).
Proof.
  induction r as [l|g p|p|r1 IH1 r2 IH2|r1 IH1];
    intros w s cap k Hb Hw [c Hk]; simpl in *.
  - subst w. rewrite lit_complete. by apply (Hb s c).
  - destruct g.
    + apply star_greedy_complete; [done|]. by apply (Hb s c).
    + apply star_lazy_complete; [done|]. by apply (Hb s c).
  - destruct Hw as [Hne Hw]. destruct w as [|a w]; [done|]. simpl in *.
    apply andb_true_iff in Hw as [Ha Hw]. rewrite Ha.
    apply star_greedy_complete; [done|]. by apply (Hb s c).
  - destruct Hw as (u & v & -> & Hu & Hv). rewrite append_assoc.
    apply IH1; [|done|].
    + intros s1 c1 c2 [res Hres].
      destruct (rmatch_sound _ _ _ _ _ Hres) as (w' & s' & c' & -> & Hw' & Hk').
      apply IH2; [done|done|]. exists c'. by rewrite Hk'.
    + exists cap. apply IH2; [done|done|eauto].
  - apply IH1; [|done|].
    + intros s1 c1 c2 H. exact H.
    + exists cap. by apply (Hb s c).
Qed.

Lemma search_here r s : is_Some (Re.match_here r s) -> is_Some (Re.search r s).
Proof. intros [res Hres]. destruct s; simpl; rewrite Hres; eauto. Qed.

Lemma search_complete r text : occurs r text -> is_Some (Re.search r text).
Proof.
  intros (before & w & after & -> & Hw).
  induction before as [|c before IH].
  - change ("" +:+ w +:+ after) with (w +:+ after).
    apply search_here. unfold Re.match_here.
    apply rmatch_complete; [|done|].
    + intros s c1 c2 _. eauto.
    + exists None. eauto.
  - change (String c before +:+ w +:+ after)
      with (String c (before +:+ w +:+ after)).
    cbn [Re.search]. destruct (Re.match_here r _); [eauto|]. exact IH.
Qed.

Lemma search_sound r text : is_Some (Re.search r text) -> occurs r text.
Proof.
  induction text as [|c text IH]; simpl.
  - destruct (Re.match_here r "") as [res|] eqn:E; [|by intros [? [=]]].
    intros _. unfold Re.match_here in E.
    destruct (rmatch_sound _ _ _ _ _ E) as (w & s' & _ & Hs & Hw & _).
    exists "", w, s'. done.
  - destruct (Re.match_here r (String c text)) as [res|] eqn:E.
    + intros _. unfold Re.match_here in E.
      destruct (rmatch_sound _ _ _ _ _ E) as (w & s' & _ & Hs & Hw & _).
      exists "", w, s'. done.
    + intros H. destruct (IH H) as (before & w & after & -> & Hw).
      exists (String c before), w, after. done.
Qed.

Lemma find_none_iff {A} (p : A -> bool) (l : list A) :
  List.find p l = None <-> forall x, x ∈ l -> p x = false.
Proof.
  induction l as [|a l IH]; simpl.
  - split; [|done]. intros _ x Hx. by apply elem_of_nil in Hx.
  - destruct (p a) eqn:Ha.
    + split; [done|]. intros Hall.
      rewrite Hall in Ha; [done|]. apply elem_of_cons. by left.
    + rewrite IH. split.
      * intros Hall x [->|Hx]%elem_of_cons; [done|by apply Hall].
      * intros Hall x Hx. apply Hall. apply elem_of_cons. by right.
Qed.

(** X12: for a log that can be read, the call returns a dictionary with an
    entry for a field exactly when the log holds, somewhere, a word of the
    field's pattern and none of the numbers the three patterns capture has
    more than 4300 digits. *)
Theorem field_recorded_iff_pattern_occurs fs log_file content h key :
  open_read fs log_file = Readable content ->
  (exists metrics v,
      _parse_log_file fs log_file h = ([], inr (Some metrics)) /\
      metrics !! key = Some v)
  <->
  (exists re, field_pattern key = Some re /\ occurs re content) /\
  (forall number,
      number ∈ log_numbers content -> Str.over_long number = false).
Proof.
  intros Hopen. rewrite <- find_none_iff.
  pose proof (parse_log_content_spec content) as Hspec.
  unfold _parse_log_file, parse_log_try. rewrite Hopen.
  destruct (List.find Str.over_long (log_numbers content)) as [number|].
  { rewrite Hspec. split; [by intros (m & v & [=] & _)|by intros [_ [=]]]. }
  destruct Hspec as (metrics & -> & Hfields).
  pose proof (parse_log_content_keys _ _ Hfields) as Hkeys.
  split.
  - intros (m & v & Heq & Hv). case_bool_decide; [|done].
    injection Heq as <-. split; [|done].
    destruct (proj1 (Hkeys key)) as (re & Hre & Hs); [eauto|].
    exists re. split; [done|]. by apply search_sound.
  - intros [(re & Hre & Hocc) _].
    destruct (proj2 (Hkeys key)) as [v Hv].
    { exists re. split; [done|]. by apply search_complete. }
    exists metrics, v. split; [|done].
    rewrite bool_decide_eq_true_2; [done|].
    intros ->. by rewrite lookup_empty in Hv.
Qed.

Lemma field_recorded_iff_pattern_occurs_witness :
  open_read job_fs "job.log" = Readable example_log /\
  ((exists metrics v,
       _parse_log_file job_fs "job.log" [] = ([], inr (Some metrics)) /\
       metrics !! "disk_kb" = Some v)
   <->
   (exists re, field_pattern "disk_kb" = Some re /\ occurs re example_log) /\
   (forall number,
       number ∈ log_numbers example_log -> Str.over_long number = false)).
Proof.
  split; [reflexivity|].
  apply (field_recorded_iff_pattern_occurs job_fs "job.log" example_log []
           "disk_kb").
  reflexivity.
Defined.

(** ** What the parsers print and what they keep *)

(** The warning a parser prints when reading [path] fails, if it fails. *)
Definition read_warning (fs : filesystem) (what path : string) : list event :=
  match open_read fs path with
  | Readable _ => []
  | Unreadable e | Truncated _ e =>
      [Stderr ("Warning: Could not parse " +:+ what +:+ " file: " +:+ e)]
  end.

(** The warning [_parse_log_file] prints for [path], if it prints one:
    the exception of the read, or the ValueError of int() on the first
    captured number of more than 4300 digits. *)
Definition log_warning (fs : filesystem) (path : string) : list event :=
  match open_read fs path with
  | Readable content =>
      match List.find Str.over_long (log_numbers content) with
      | Some number =>
          [Stderr ("Warning: Could not parse log file: "
                   +:+ Str.int_error number)]
      | None => []
      end
  | Unreadable e | Truncated _ e =>
      [Stderr ("Warning: Could not parse log file: " +:+ e)]
  end.

Lemma parse_log_file_warning fs path h :
  fst (_parse_log_file fs path h) = log_warning fs path.
Proof.
  unfold log_warning, _parse_log_file, parse_log_try.
  destruct (open_read fs path) as [e|content|text e]; try reflexivity.
  pose proof (parse_log_content_spec content) as Hspec.
  destruct (List.find Str.over_long (log_numbers content)) as [number|].
  - by rewrite Hspec.
  - by destruct Hspec as (metrics & -> & _).
Qed.

(** X9: the two parsers call nothing of the SDK; all they add to the
    events is at most one warning on stderr.  [_parse_submit_file] warns
    exactly when the file cannot be opened or read to its end.
    [_parse_log_file] warns in that case too, and also when the log is read
    and a number captured by one of the patterns has more than 4300
    digits: the warning then carries the ValueError that int() raises on
    the first such number.  On any other log that can be read it prints
    nothing. *)
Theorem parsers_warn_on_exceptions_only fs path h :
  fst (_parse_submit_file fs path h) = read_warning fs "submit" path /\
  fst (_parse_log_file fs path h) = log_warning fs path /\
  (forall content,
      open_read fs path = Readable content ->
      (fst (_parse_log_file fs path h) = [] <->
       forall number,
         number ∈ log_numbers content -> Str.over_long number = false)).
Proof.
  split; [|split].
  - unfold read_warning, _parse_submit_file, parse_submit_try.
    by destruct (open_read fs path).
  - apply parse_log_file_warning.
  - intros content Hopen. rewrite parse_log_file_warning, <- find_none_iff.
    unfold log_warning. rewrite Hopen.
    by destruct (List.find Str.over_long (log_numbers content)).
Qed.

(** X10: whatever the file (readable, cut short or not there), every key
    of the dictionary [_parse_submit_file] returns is one of the five keys
    of the allow-list, and its value is a string. *)
Theorem submit_config_keys_allowed fs path h t config key v :
  _parse_submit_file fs path h = (t, inr config) ->
  config !! key = Some v ->
  key ∈ allow_list /\ exists value, v = PStr value.
Proof.
  intros Hrun Hv.
  assert (exists lines, config = foldl parse_submit_line ∅ lines) as [lines ->].
  { unfold _parse_submit_file, parse_submit_try in Hrun.
    destruct (open_read fs path) as [e|text|text e];
      injection Hrun as _ <-; [by exists []|eauto|eauto]. }
  apply parse_submit_lines_lookup in Hv
    as (value & -> & _ & raw & _ & _ & Hy & _).
  split; [|eauto].
  by destruct Hy as (_ & _ & before & after & _ & _ & _ & _ & Hin).
Qed.

Lemma submit_config_keys_allowed_witness :
  _parse_submit_file job_fs "submit.txt" []
  = ([], inr {[ "universe" := PStr "vanilla";
                "executable" := PStr "/bin/run.sh";
                "request_cpus" := PStr "4" ]}) /\
  ({[ "universe" := PStr "vanilla"; "executable" := PStr "/bin/run.sh";
      "request_cpus" := PStr "4" ]} : gmap string pyval) !! "universe"
  = Some (PStr "vanilla") /\
  "universe" ∈ allow_list /\ exists value, PStr "vanilla" = PStr value.
Proof.
  assert (_parse_submit_file job_fs "submit.txt" []
          = ([], inr {[ "universe" := PStr "vanilla";
                        "executable" := PStr "/bin/run.sh";
                        "request_cpus" := PStr "4" ]})) as Hrun
    by (vm_compute; reflexivity).
  split; [exact Hrun|]. split; [reflexivity|].
  apply (submit_config_keys_allowed job_fs "submit.txt" [] [] _ "universe"
           (PStr "vanilla") Hrun).
  reflexivity.
Defined.

Lemma int_acc_nonneg s : forall acc z,
  0 <= acc -> Str.int_acc acc s = Some z -> 0 <= z.
Proof.
  induction s as [|c s IH]; intros acc z Hacc; simpl.
  - by intros [= <-].
  - destruct (Str.isdigit c) eqn:Hc; [|done]. apply IH.
    unfold Str.isdigit in Hc. cbv zeta in Hc.
    apply andb_true_iff in Hc as [H1%N.leb_le _]. unfold Str.digit_val. lia.
Qed.

Lemma int_nonneg s z : Str.int s = Some z -> 0 <= z.
Proof.
  destruct s; [done|]. unfold Str.int.
  destruct (Str.over_long _); [done|]. by apply int_acc_nonneg.
Qed.

Lemma recorded_nonneg found value entry v :
  (forall t n, value t n -> 0 <= n) ->
  recorded found value entry -> entry = Some v ->
  exists n, v = PInt n /\ 0 <= n.
Proof.
  intros Hval. destruct found as [t|]; simpl.
  - intros (n & Hn & ->) [= <-]. eauto.
  - by intros -> [=].
Qed.

(** X11: whatever the file, a dictionary [_parse_log_file] returns has no
    key but runtime_seconds, memory_mb and disk_kb, and every value in it
    is an integer that is not negative. *)
Theorem log_metrics_nonnegative fs path h t metrics key v :
  _parse_log_file fs path h = (t, inr (Some metrics)) ->
  metrics !! key = Some v ->
  key ∈ ["runtime_seconds"; "memory_mb"; "disk_kb"] /\
  exists n, v = PInt n /\ 0 <= n.
Proof.
  intros Hrun Hv. unfold _parse_log_file, parse_log_try in Hrun.
  destruct (open_read fs path) as [e|content|text e]; try done.
  destruct (parse_log_content content) as [e|m] eqn:Hm; [done|].
  apply parse_log_content_fields in Hm
    as (_ & Hrt & Hmem & Hdisk & Hother).
  case_bool_decide; [|done]. injection Hrun as _ <-.
  assert (forall t n, hms_value t n -> 0 <= n) as Hhms.
  { intros t' n (hs & ms & ss & nh & nm & ns & _ & HH & HM & HS & ->).
    apply int_nonneg in HH, HM, HS. lia. }
  assert (forall t n, int_value t n -> 0 <= n) as Hint.
  { intros t' n Hn. by apply int_nonneg in Hn. }
  destruct (decide (key ∈ ["runtime_seconds"; "memory_mb"; "disk_kb"]))
    as [Hin|Hout].
  - split; [done|]. repeat rewrite elem_of_cons in Hin.
    destruct Hin as [->|[->|[->|Hnil]]].
    + eapply recorded_nonneg; [exact Hhms|exact Hrt|exact Hv].
    + eapply recorded_nonneg; [exact Hint|exact Hmem|exact Hv].
    + eapply recorded_nonneg; [exact Hint|exact Hdisk|exact Hv].
    + by apply elem_of_nil in Hnil.
  - rewrite (Hother key Hout) in Hv. done.
Qed.

Lemma log_metrics_nonnegative_witness :
  _parse_log_file job_fs "job.log" []
  = ([], inr (Some {[ "memory_mb" := PInt 2048; "disk_kb" := PInt 512000;
                      "runtime_seconds" := PInt 3723 ]})) /\
  "runtime_seconds" ∈ ["runtime_seconds"; "memory_mb"; "disk_kb"] /\
  exists n, PInt 3723 = PInt n /\ 0 <= n.
Proof.
  assert (_parse_log_file job_fs "job.log" []
          = ([], inr (Some {[ "memory_mb" := PInt 2048;
                              "disk_kb" := PInt 512000;
                              "runtime_seconds" := PInt 3723 ]}))) as Hrun
    by (vm_compute; reflexivity).
  split; [exact Hrun|].
  apply (log_metrics_nonnegative job_fs "job.log" [] [] _ "runtime_seconds"
           (PInt 3723) Hrun).
  reflexivity.
Defined.

(** ** A submission that returns *)

(** The call to wandb.init that a submission makes. *)
Definition submission_init (fs : filesystem) (self : logger)
  (project submit_file job_id : string) (config : option (gmap string pyval))
  : event :=
  InitNew project (run_name None (Some job_id))
    (run_config
       (Some (or_empty_dict config ∪ fst (parse_submit_try fs submit_file)))
       (Some job_id))
    ["chtc"] (entity self).

Lemma bind_inr_inv {A B} (m : M A) (f : A -> M B) h t b :
  bind m f h = (t, inr b) ->
  exists t1 a t2,
    m h = (t1, inr a) /\ f a (h ++ t1) = (t2, inr b) /\ t = t1 ++ t2.
Proof.
  unfold bind. destruct (m h) as [t1 [e|a]]; [done|].
  destruct (f a (h ++ t1)) as [t2 r] eqn:Ef. intros [= <- <-].
  by exists t1, a, t2.
Qed.

Lemma call_inr_inv backend ev h t v :
  call backend ev h = (t, inr v) -> t = [ev] /\ backend h ev = Returns v.
Proof.
  unfold call. destruct (backend h ev) as [v'|e]; [|done].
  by intros [= <- <-].
Qed.

Lemma parse_submit_file_run fs path h :
  _parse_submit_file fs path h
  = (read_warning fs "submit" path, inr (fst (parse_submit_try fs path))).
Proof.
  unfold _parse_submit_file, read_warning, parse_submit_try.
  by destruct (open_read fs path).
Qed.

Lemma submission_returned fs backend self project submit_file job_id config h
  t run_id :
  log_job_submission fs backend self project submit_file job_id config h
  = (t, inr run_id) ->
  t = read_warning fs "submit" submit_file ++
      [submission_init fs self project submit_file job_id config;
       NewArtifact ("submit-" +:+ job_id) "submit_file";
       AddFile ("submit-" +:+ job_id) submit_file;
       LogArtifact ("submit-" +:+ job_id) "submit_file" [submit_file];
       RunFinish] /\
  backend (h ++ read_warning fs "submit" submit_file)
    (submission_init fs self project submit_file job_id config)
  = Returns run_id.
Proof.
  intros Hrun. unfold log_job_submission in Hrun.
  apply bind_inr_inv in Hrun as (t0 & sc & t0' & H0 & Hrun & ->).
  rewrite parse_submit_file_run in H0. injection H0 as <- <-.
  cbv beta zeta in Hrun.
  apply bind_inr_inv in Hrun as (t1 & id & t1' & H1 & Hrun & ->).
  unfold init_run in H1. apply call_inr_inv in H1 as [-> Hid].
  apply bind_inr_inv in Hrun as (t2 & v2 & t2' & H2 & Hrun & ->).
  apply call_inr_inv in H2 as [-> _].
  apply bind_inr_inv in Hrun as (t3 & v3 & t3' & H3 & Hrun & ->).
  apply call_inr_inv in H3 as [-> _].
  apply bind_inr_inv in Hrun as (t4 & v4 & t4' & H4 & Hrun & ->).
  apply call_inr_inv in H4 as [-> _].
  apply bind_inr_inv in Hrun as (t5 & v5 & t5' & H5 & Hrun & ->).
  apply call_inr_inv in H5 as [-> _].
  unfold ret in Hrun. injection Hrun as <- <-.
  split; [reflexivity|exact Hid].
Qed.

(** X6: when [log_job_submission] returns, what it returns is the id that
    wandb.init gave for the run it created, and its events are, in order:
    the parser's warning if the descriptor could not be read, wandb.init
    with the project, the name made from the job id, the tag "chtc" and the
    logger's entity, then the artifact "submit-<job id>" of type
    submit_file made, the descriptor added to it, the artifact logged, and
    the run finished. *)
Theorem submission_returns_created_id fs backend self project submit_file
  job_id config h t run_id :
  log_job_submission fs backend self project submit_file job_id config h
  = (t, inr run_id) ->
  exists cfg,
    let warning := read_warning fs "submit" submit_file in
    let created :=
      InitNew project (run_name None (Some job_id)) cfg ["chtc"]
        (entity self) in
    let artifact := "submit-" +:+ job_id in
    t = warning ++
        [created;
         NewArtifact artifact "submit_file";
         AddFile artifact submit_file;
         LogArtifact artifact "submit_file" [submit_file];
         RunFinish] /\
    backend (h ++ warning) created = Returns run_id.
Proof.
  intros Hrun.
  destruct (submission_returned fs backend self project submit_file job_id
              config h t run_id Hrun) as (Ht & Hid).
  eexists. split; [exact Ht|exact Hid].
Qed.

Lemma submission_returns_created_id_witness :
  exists t,
    log_job_submission job_fs (wandb_backend job_fs) a_logger "proj"
      "submit.txt" "123.0" None [] = (t, inr "run-1") /\
    exists cfg,
      t = read_warning job_fs "submit" "submit.txt" ++
          [InitNew "proj" (run_name None (Some "123.0")) cfg ["chtc"]
             (entity a_logger);
           NewArtifact "submit-123.0" "submit_file";
           AddFile "submit-123.0" "submit.txt";
           LogArtifact "submit-123.0" "submit_file" ["submit.txt"];
           RunFinish] /\
      wandb_backend job_fs ([] ++ read_warning job_fs "submit" "submit.txt")
        (InitNew "proj" (run_name None (Some "123.0")) cfg ["chtc"]
           (entity a_logger)) = Returns "run-1".
Proof.
  eexists. split; [vm_compute; reflexivity|].
  apply (submission_returns_created_id job_fs (wandb_backend job_fs) a_logger
           "proj" "submit.txt" "123.0" None []).
  vm_compute. reflexivity.
Defined.

(** ** A completion, step by step *)

(** What [_parse_log_file] returns for [path]. *)
Definition log_usage (fs : filesystem) (path : string)
  : option (gmap string pyval) :=
  match parse_log_try fs path with
  | inr metrics => if bool_decide (metrics <> ∅) then Some metrics else None
  | inl _ => None
  end.

Lemma parse_log_file_run fs path h :
  _parse_log_file fs path h = (log_warning fs path, inr (log_usage fs path)).
Proof.
  rewrite <- (parse_log_file_warning fs path h).
  unfold _parse_log_file, log_usage.
  by destruct (parse_log_try fs path).
Qed.

(** X7: inputs that [log_job_completion] passes over in silence.  A log
    path that does not exist, an empty list of output files and an empty
    dictionary of metrics each leave the call doing exactly what it does
    when the argument is not given: no warning, no artifact, no run.log. *)
Theorem completion_ignores_missing_inputs fs backend run_id log_file
  output_files metrics h :
  (forall path,
      path_exists fs path = false ->
      log_job_completion fs backend run_id (Some path) output_files metrics h
      = log_job_completion fs backend run_id None output_files metrics h) /\
  log_job_completion fs backend run_id log_file (Some []) metrics h
  = log_job_completion fs backend run_id log_file None metrics h /\
  log_job_completion fs backend run_id log_file output_files (Some ∅) h
  = log_job_completion fs backend run_id log_file output_files None h.
Proof.
  split; [|split].
  - intros path Hpath. unfold log_job_completion.
    change (default "" (Some path)) with path.
    rewrite Hpath, andb_false_r. reflexivity.
  - reflexivity.
  - reflexivity.
Qed.

(** The events of a completion in which the SDK raises nowhere. *)
Definition completion_trace (fs : filesystem) (run_id : string)
  (log_file : option string) (output_files : option (list string))
  (metrics : option (gmap string pyval)) : list event :=
  [InitResumeMust run_id] ++
  (if truthy_str log_file && path_exists fs (default "" log_file) then
     let path := default "" log_file in
     log_warning fs path ++
     match log_usage fs path with
     | Some usage => [RunLog usage]
     | None => []
     end ++
     [NewArtifact ("logs-" +:+ run_id) "logs";
      AddFile ("logs-" +:+ run_id) path;
      LogArtifact ("logs-" +:+ run_id) "logs" [path]]
   else []) ++
  match metrics with
  | Some m => if bool_decide (m <> ∅) then [RunLog m] else []
  | None => []
  end ++
  match output_files with
  | Some (p :: l) =>
      let existing := List.filter (path_exists fs) (p :: l) in
      NewArtifact ("outputs-" +:+ run_id) "results"
        :: (AddFile ("outputs-" +:+ run_id) <$> existing)
        ++ [LogArtifact ("outputs-" +:+ run_id) "results" existing]
  | _ => []
  end ++
  [RunFinish].

Lemma log_usage_nonempty fs path usage :
  log_usage fs path = Some usage -> truthy_dict (Some usage) = true.
Proof.
  unfold log_usage. destruct (parse_log_try fs path) as [e|m]; [done|].
  case_bool_decide as Hne; [|done]. intros [= <-]. simpl.
  by apply bool_decide_eq_true_2.
Qed.

Lemma add_existing_inv fs backend artifact output_files :
  forall h t added,
    add_existing fs backend artifact output_files h = (t, inr added) ->
    added = List.filter (path_exists fs) output_files /\
    t = AddFile artifact <$> added.
Proof.
  induction output_files as [|p l IH]; intros h t added;
    cbn [add_existing List.filter].
  - by intros [= <- <-].
  - destruct (path_exists fs p); [|apply IH]. intros Hrun.
    apply bind_inr_inv in Hrun as (t1 & v1 & t1' & H1 & Hrun & ->).
    apply call_inr_inv in H1 as [-> _].
    apply bind_inr_inv in Hrun as (t2 & rest & t2' & H2 & Hrun & ->).
    apply IH in H2 as [-> ->]. injection Hrun as <- <-.
    split; [done|]. rewrite fmap_cons. by rewrite app_nil_r.
Qed.

Ltac run_inv :=
  repeat
    match goal with
    | H : bind _ _ _ = (_, inr _) |- _ =>
        let t1 := fresh "t" in
        let a := fresh "a" in
        let t2 := fresh "t" in
        let H1 := fresh "H" in
        apply bind_inr_inv in H as (t1 & a & t2 & H1 & H & ->)
    | H : call _ _ _ = (_, inr _) |- _ => apply call_inr_inv in H as [-> _]
    | H : ret _ _ = (_, inr _) |- _ => injection H as <-; try subst
    | H : _parse_log_file _ _ _ = (_, inr _) |- _ =>
        rewrite parse_log_file_run in H; injection H as <- <-
    | H : add_existing _ _ _ _ _ = (_, inr _) |- _ =>
        apply add_existing_inv in H as [-> ->]
    end.

Ltac trace_eq :=
  unfold or_empty_dict, or_empty_list;
  repeat (cbn [app default from_option id]; rewrite <- ?app_assoc);
  rewrite ?app_nil_r; reflexivity.

(** X8: when [log_job_completion] returns, its events are exactly these,
    in this order: the run is resumed; if the log path is given and
    exists, the parser's warning if it printed one, the resource usage
    logged if any was found, and the log file attached as the artifact
    "logs-<run id>" whether or not anything was found in it; the extra
    metrics logged if there are any; if output files are given, the
    artifact "outputs-<run id>" with the files that exist; and the run
    finished. *)
Theorem completion_runs_in_order fs backend run_id log_file output_files
  metrics h t :
  log_job_completion fs backend run_id log_file output_files metrics h
  = (t, inr tt) ->
  t = completion_trace fs run_id log_file output_files metrics.
Proof.
  unfold log_job_completion, completion_trace. intros Hrun.
  destruct (truthy_str log_file && path_exists fs (default "" log_file)).
  - destruct metrics as [m|]; [cbn [truthy_dict] in Hrun;
                               destruct (bool_decide (m <> ∅))|];
      (destruct output_files as [[|p l]|]);
      cbn [truthy_dict truthy_list or_empty_dict or_empty_list default
             from_option] in Hrun;
      run_inv;
      (destruct (log_usage fs (default "" log_file)) as [usage|] eqn:Husage;
       [rewrite (log_usage_nonempty _ _ _ Husage) in *|
        cbn [truthy_dict] in *]);
      run_inv;
      trace_eq.
  - destruct metrics as [m|]; [cbn [truthy_dict] in Hrun;
                               destruct (bool_decide (m <> ∅))|];
      (destruct output_files as [[|p l]|]);
      cbn [truthy_dict truthy_list or_empty_dict or_empty_list default
             from_option] in Hrun;
      run_inv;
      trace_eq.
Qed.

Lemma completion_runs_in_order_witness :
  exists t,
    log_job_completion job_fs (wandb_backend job_fs) "run-1" (Some "job.log")
      (Some ["lost.csv"; "out.csv"]) (Some {[ "accuracy" := PInt 97 ]}) []
    = (t, inr tt) /\
    t = completion_trace job_fs "run-1" (Some "job.log")
          (Some ["lost.csv"; "out.csv"]) (Some {[ "accuracy" := PInt 97 ]}).
Proof.
  eexists. split; [vm_compute; reflexivity|].
  apply (completion_runs_in_order job_fs (wandb_backend job_fs) "run-1"
           (Some "job.log") (Some ["lost.csv"; "out.csv"])
           (Some {[ "accuracy" := PInt 97 ]}) []).
  vm_compute. reflexivity.
Defined.

Example completion_trace_ex :
  completion_trace job_fs "run-1" (Some "plain.log") (Some ["lost.csv"]) None
  = [InitResumeMust "run-1";
     NewArtifact "logs-run-1" "logs";
     AddFile "logs-run-1" "plain.log";
     LogArtifact "logs-run-1" "logs" ["plain.log"];
     NewArtifact "outputs-run-1" "results";
     LogArtifact "outputs-run-1" "results" [];
     RunFinish].
Proof. vm_compute. reflexivity. Qed.

(** ** CHTCWandBLogger.__init__ and the command line *)

(** [a or b] on optional strings. *)
Definition py_or (a b : option string) : option string :=
  if truthy_str a then a else b.

(** [__init__]: the logger, and os.environ as the constructor leaves it. *)
Definition __init__ (environ : gmap string string)
  (api_key entity : option string) : logger * gmap string string :=
  let self_api_key := py_or api_key (environ !! "WANDB_API_KEY") in
  let self_entity := py_or entity (environ !! "WANDB_ENTITY") in
  let environ :=
    if truthy_str self_api_key
    then <["WANDB_API_KEY" := default "" self_api_key]> environ
    else environ in
  ({| api_key := self_api_key; entity := self_entity |}, environ).

(** X1: after [__init__], the logger's key is the argument when that is
    given and not empty, and the environment's WANDB_API_KEY otherwise (the
    same for the entity and WANDB_ENTITY); the environment then holds a
    non-empty WANDB_API_KEY exactly when the logger has a non-empty key,
    and it is that key; no other variable is touched. *)
Theorem init_exports_api_key environ key ent :
  let '(self, environ') := __init__ environ key ent in
  api_key self = (if truthy_str key then key else environ !! "WANDB_API_KEY") /\
  entity self = (if truthy_str ent then ent else environ !! "WANDB_ENTITY") /\
  truthy_str (environ' !! "WANDB_API_KEY") = truthy_str (api_key self) /\
  (truthy_str (api_key self) = true ->
   environ' !! "WANDB_API_KEY" = api_key self) /\
  (forall var, var <> "WANDB_API_KEY" -> environ' !! var = environ !! var).
Proof.
  unfold __init__, py_or. cbn [api_key entity].
  split; [done|]. split; [done|].
  destruct (truthy_str key) eqn:Hk.
  - rewrite Hk. rewrite lookup_insert_eq.
    destruct key as [[|c k]|]; try done. split; [done|]. split; [done|].
    intros var Hvar. by rewrite lookup_insert_ne.
  - destruct (environ !! "WANDB_API_KEY") as [[|c k]|] eqn:He;
      cbn [truthy_str default from_option].
    + by rewrite He.
    + rewrite lookup_insert_eq. split; [done|]. split; [done|].
      intros var Hvar. by rewrite lookup_insert_ne.
    + by rewrite He.
Qed.

(** *** main *)

(** What argparse hands to [main]: the two global options and the
    subcommand with its own options ([dest='command'] stays None when no
    subcommand is given; [--output-files] takes one name or more). *)
Inductive command :=
| NoCommand
| SubmitCommand (project submit_file job_id : string) (config : option string)
| CompleteCommand (run_id : string) (log_file : option string)
    (output_files : option (list string)) (metrics : option string).

Record namespace := {
  args_api_key : option string;
  args_entity : option string;
  args_command : command
}.

(** What a run of [main] leaves: os.environ, the events, the lines printed
    on stdout, and whether it returned or raised. *)
Record main_outcome := {
  environ_after : gmap string string;
  events : list event;
  stdout : list string;
  result : string + unit
}.

Section Main.

Variable fs : filesystem.
Variable backend : backend_t.

(** [yaml.safe_load] on the text of a file, for the documents the tool
    takes: an empty document (None) or a flat mapping of the values a
    config holds; the left side is the exception of a text that does not
    parse. *)
Variable yaml_safe_load : string -> string + option (gmap string pyval).

(** [d = {}], then [if path and os.path.exists(path): with open(path) as f:
    d = yaml.safe_load(f)]. *)
Definition load_yaml_option (path : option string)
  : string + option (gmap string pyval) :=
  if truthy_str path && path_exists fs (default "" path) then
    match open_read fs (default "" path) with
    | Readable text => yaml_safe_load text
    | Unreadable e | Truncated _ e => inl e
    end
  else inr (Some ∅).

Definition main (environ : gmap string string) (args : namespace)
  : list event -> main_outcome :=
  fun h =>
    let '(logger, environ) :=
      __init__ environ (args_api_key args) (args_entity args) in
    match args_command args with
    | SubmitCommand project submit_file job_id config_path =>
        match load_yaml_option config_path with
        | inl e => Build_main_outcome environ [] [] (inl e)
        | inr config =>
            match log_job_submission fs backend logger project submit_file
                    job_id config h with
            | (t, inr run_id) => Build_main_outcome environ t [run_id] (inr tt)
            | (t, inl e) => Build_main_outcome environ t [] (inl e)
            end
        end
    | CompleteCommand run_id log_file output_files metrics_path =>
        match load_yaml_option metrics_path with
        | inl e => Build_main_outcome environ [] [] (inl e)
        | inr metrics =>
            match log_job_completion fs backend run_id log_file output_files
                    metrics h with
            | (t, inr _) =>
                Build_main_outcome environ t
                  ["Logged completion for run " +:+ run_id] (inr tt)
            | (t, inl e) => Build_main_outcome environ t [] (inl e)
            end
        end
    | NoCommand => Build_main_outcome environ [] [] (inr tt)
    end.

End Main.

(** X2: [main] with the submit command prints one line, the id that
    wandb.init returned for the run it created, exactly when it returns,
    and then the run was created with the entity of the command line or,
    without one, of WANDB_ENTITY, the descriptor was attached and the run
    finished; when it raises it prints nothing on stdout. *)
Theorem main_submit_prints_created_id fs backend yaml environ key ent project
  submit_file job_id config_path h :
  let out :=
    main fs backend yaml environ
      {| args_api_key := key; args_entity := ent;
         args_command := SubmitCommand project submit_file job_id config_path |}
      h in
  match result out with
  | inl _ => stdout out = []
  | inr _ =>
      exists run_id cfg,
        let warning := read_warning fs "submit" submit_file in
        let created :=
          InitNew project (run_name None (Some job_id)) cfg ["chtc"]
            (py_or ent (environ !! "WANDB_ENTITY")) in
        stdout out = [run_id] /\
        events out = warning ++
          [created;
           NewArtifact ("submit-" +:+ job_id) "submit_file";
           AddFile ("submit-" +:+ job_id) submit_file;
           LogArtifact ("submit-" +:+ job_id) "submit_file" [submit_file];
           RunFinish] /\
        backend (h ++ warning) created = Returns run_id
  end.
Proof.
  cbv zeta. unfold main, __init__. cbn [args_api_key args_entity args_command].
  destruct (load_yaml_option fs yaml config_path) as [e|config]; [done|].
  match goal with
  | |- context [log_job_submission fs backend ?l project submit_file job_id
                  config h] =>
      destruct (log_job_submission fs backend l project submit_file job_id
                  config h) as [t [e|run_id]] eqn:Hrun
  end; [done|].
  cbn [result stdout events].
  apply submission_returned in Hrun as [Ht Hid].
  exists run_id. eexists. split; [done|]. split; [exact Ht|exact Hid].
Qed.

(** X3: a YAML path that is given but does not exist is passed over: for
    both commands [main] does exactly what it does without the option.  A
    YAML file that exists but cannot be read or parsed makes [main] raise
    before any call to the SDK, with nothing printed on stdout. *)
Theorem main_yaml_option fs backend yaml environ key ent h :
  (forall path project submit_file job_id,
      path_exists fs path = false ->
      main fs backend yaml environ
        {| args_api_key := key; args_entity := ent;
           args_command := SubmitCommand project submit_file job_id (Some path) |} h
      = main fs backend yaml environ
          {| args_api_key := key; args_entity := ent;
             args_command := SubmitCommand project submit_file job_id None |} h) /\
  (forall path run_id log_file output_files,
      path_exists fs path = false ->
      main fs backend yaml environ
        {| args_api_key := key; args_entity := ent;
           args_command :=
             CompleteCommand run_id log_file output_files (Some path) |} h
      = main fs backend yaml environ
          {| args_api_key := key; args_entity := ent;
             args_command :=
               CompleteCommand run_id log_file output_files None |} h) /\
  (forall path e cmd,
      load_yaml_option fs yaml (Some path) = inl e ->
      (exists project submit_file job_id,
          cmd = SubmitCommand project submit_file job_id (Some path)) \/
      (exists run_id log_file output_files,
          cmd = CompleteCommand run_id log_file output_files (Some path)) ->
      let out :=
        main fs backend yaml environ
          {| args_api_key := key; args_entity := ent; args_command := cmd |} h in
      events out = [] /\ stdout out = [] /\ result out = inl e).
Proof.
  assert (forall path, path_exists fs path = false ->
            load_yaml_option fs yaml (Some path) = load_yaml_option fs yaml None)
    as Hmissing.
  { intros path Hpath. unfold load_yaml_option.
    change (default "" (Some path)) with path.
    rewrite Hpath, andb_false_r. reflexivity. }
  split; [|split].
  - intros path project submit_file job_id Hpath. unfold main.
    cbn [args_command]. by rewrite (Hmissing path Hpath).
  - intros path run_id log_file output_files Hpath. unfold main.
    cbn [args_command]. by rewrite (Hmissing path Hpath).
  - intros path e cmd Hload
      [(project & submit_file & job_id & ->)
      |(run_id & log_file & output_files & ->)];
      cbv zeta; unfold main, __init__; cbn [args_command]; by rewrite Hload.
Qed.


(** A disk on which the YAML path is a directory. *)
Definition dir_fs : filesystem := {|
  path_exists p := bool_decide (p = "conf.d");
  open_read p :=
    if bool_decide (p = "conf.d") then Unreadable "IsADirectoryError"
    else Unreadable "FileNotFoundError"
|}.

(** A YAML loader for the examples: every text is an empty document. *)
Definition empty_yaml (text : string) : string + option (gmap string pyval) :=
  inr None.

Lemma main_yaml_option_witness :
  path_exists job_fs "none.yaml" = false /\
  load_yaml_option dir_fs empty_yaml (Some "conf.d") = inl "IsADirectoryError" /\
  main job_fs (wandb_backend job_fs) empty_yaml ∅
    {| args_api_key := None; args_entity := None;
       args_command := SubmitCommand "proj" "submit.txt" "123.0" (Some "none.yaml") |} []
  = main job_fs (wandb_backend job_fs) empty_yaml ∅
      {| args_api_key := None; args_entity := None;
         args_command := SubmitCommand "proj" "submit.txt" "123.0" None |} [] /\
  (let out :=
     main dir_fs (wandb_backend dir_fs) empty_yaml ∅
       {| args_api_key := None; args_entity := None;
          args_command := CompleteCommand "run-1" None None (Some "conf.d") |} [] in
   events out = [] /\ stdout out = [] /\ result out = inl "IsADirectoryError").
Proof.
  split; [reflexivity|]. split; [reflexivity|]. split.
  - apply (proj1 (main_yaml_option job_fs (wandb_backend job_fs) empty_yaml ∅
                    None None [])).
    reflexivity.
  - apply (proj2 (proj2 (main_yaml_option dir_fs (wandb_backend dir_fs)
                           empty_yaml ∅ None None []))
             "conf.d" "IsADirectoryError").
    + reflexivity.
    + right. by exists "run-1", None, None.
Defined.


(** ** examples/train-wandb.py: get_htcondor_metadata *)

(** [condor_vars], in the order of the dictionary. *)
Definition condor_vars : list (string * string) :=
  [("_CONDOR_JOB_AD", "job_ad");
   ("_CONDOR_MACHINE_AD", "machine_ad");
   ("_CONDOR_SLOT", "slot");
   ("CLUSTER", "cluster_id");
   ("PROCESS", "process_id")].

(** One turn of the loop over [condor_vars.items()]. *)
Definition metadata_step (environ : gmap string string)
  (metadata : gmap string string) (item : string * string)
  : gmap string string :=
  let '(env_var, key) := item in
  match environ !! env_var with
  | Some (String c value) => <[key := String c value]> metadata
  | _ => metadata
  end.

Definition get_htcondor_metadata (environ : gmap string string)
  : gmap string string :=
  foldl (metadata_step environ) ∅ condor_vars.

(** Some variable of [items] holds the non-empty [value] for [key]. *)
Definition exported (environ : gmap string string)
  (items : list (string * string)) (key value : string) : Prop :=
  exists env_var,
    (env_var, key) ∈ items /\ environ !! env_var = Some value /\ value <> "".

Lemma exported_cons environ var k items key value :
  exported environ ((var, k) :: items) key value <->
  (k = key /\ environ !! var = Some value /\ value <> "") \/
  exported environ items key value.
Proof.
  unfold exported. split.
  - intros (v & Hin & Hv & Hne). apply elem_of_cons in Hin as [[= -> ->]|Hin].
    + by left.
    + right. eauto.
  - intros [(-> & Hv & Hne)|(v & Hin & Hv & Hne)].
    + exists var. split; [by left|done].
    + exists v. split; [by right|done].
Qed.

Lemma exported_key environ items key value :
  exported environ items key value -> key ∈ items.*2.
Proof.
  intros (v & Hin & _). apply list_elem_of_fmap. by exists (v, key).
Qed.

Lemma metadata_step_lookup environ metadata var k key :
  metadata_step environ metadata (var, k) !! key =
    match environ !! var with
    | Some (String c s) =>
        if decide (k = key) then Some (String c s) else metadata !! key
    | _ => metadata !! key
    end.
Proof.
  unfold metadata_step. destruct (environ !! var) as [[|c s]|]; try done.
  destruct (decide (k = key)) as [->|Hk].
  - apply lookup_insert_eq.
  - by apply lookup_insert_ne.
Qed.

Lemma metadata_fold_lookup environ items :
  NoDup items.*2 ->
  forall metadata key value,
    foldl (metadata_step environ) metadata items !! key = Some value <->
    exported environ items key value \/
    ((forall v, ~ exported environ items key v) /\
     metadata !! key = Some value).
Proof.
  induction items as [|[var k] items IH]; intros Hnd metadata key value.
  - simpl. split.
    + intros H. right. split; [|done].
      intros v (x & Hin & _). by apply elem_of_nil in Hin.
    + intros [(x & Hin & _)|[_ H]]; [by apply elem_of_nil in Hin|done].
  - rewrite fmap_cons in Hnd. apply NoDup_cons in Hnd as [Hk Hnd].
    cbn [foldl snd] in *. rewrite (IH Hnd). clear IH.
    rewrite metadata_step_lookup. rewrite exported_cons.
    assert (forall v, exported environ ((var, k) :: items) key v <->
                      (k = key /\ environ !! var = Some v /\ v <> "") \/
                      exported environ items key v) as Hcons
      by (intros v; apply exported_cons).
    destruct (decide (k = key)) as [->|Hne].
    + assert (forall v, ~ exported environ items key v) as Hnone.
      { intros v Hv. apply Hk. by apply exported_key in Hv. }
      destruct (environ !! var) as [[|c s]|] eqn:He.
      * split.
        -- intros [Hex|[_ Hm]]; [by destruct (Hnone value)|].
           right. split; [|done]. intros v [(_ & [= <-] & Hv)|Hv]%Hcons;
             [done|by destruct (Hnone v)].
        -- intros [[(_ & [= <-] & Hv)|Hex]|[_ Hm]];
             [done|by destruct (Hnone value)|]. right. done.
      * split.
        -- intros [Hex|[_ [= <-]]]; [by destruct (Hnone value)|].
           left. left. done.
        -- intros [[(_ & [= <-] & Hv)|Hex]|[Hno _]].
           ++ right. done.
           ++ by destruct (Hnone value).
           ++ destruct (Hno (String c s)). apply Hcons. left. done.
      * split.
        -- intros [Hex|[_ Hm]]; [by destruct (Hnone value)|].
           right. split; [|done]. intros v [(_ & [=] & _)|Hv]%Hcons.
           by destruct (Hnone v).
        -- intros [[(_ & [=] & _)|Hex]|[_ Hm]];
             [by destruct (Hnone value)|]. right. done.
    + assert ((match environ !! var with
               | Some (String c s) => metadata !! key
               | _ => metadata !! key
               end) = metadata !! key) as ->
        by (by destruct (environ !! var) as [[|c s]|]).
      split.
      * intros [Hex|[Hno Hm]]; [left; by right|].
        right. split; [|done]. intros v [(? & _)|Hv]%Hcons; [done|].
        by destruct (Hno v).
      * intros [[(? & _)|Hex]|[Hno Hm]]; [done|by left|].
        right. split; [|done]. intros v Hv. apply (Hno v), Hcons. by right.
Qed.

(** X5: [get_htcondor_metadata] gives [key] the value [value] exactly when
    the variable that [condor_vars] pairs with [key] is set in the
    environment to [value] and [value] is not empty; a variable that is not
    set or is empty gives no entry, and no other variable has any effect. *)
Theorem htcondor_metadata_lookup environ key value :
  get_htcondor_metadata environ !! key = Some value <->
  exists env_var,
    (env_var, key) ∈ condor_vars /\ environ !! env_var = Some value /\
    value <> "".
Proof.
  unfold get_htcondor_metadata. rewrite metadata_fold_lookup.
  - split; [|by left]. intros [H|[_ H]]; [exact H|]. by rewrite lookup_empty in H.
  - apply (bool_decide_unpack _). vm_compute. exact I.
Qed.

Example htcondor_metadata_ex :
  get_htcondor_metadata
    {[ "CLUSTER" := "123"; "PROCESS" := ""; "HOME" := "/home/u" ]}
  = {[ "cluster_id" := "123" ]}.
Proof. vm_compute. reflexivity. Qed.
